(** * Greins: mount table, hook registry and configuration loader

    A shallow embedding of [greins/app.py] (class [GreinsApplication]) and of
    the collaborators it drives, with the properties of the design document
    stated over it.

    Layout:
    - [pystr], [os_path]: the Python string and path primitives the loader
      calls ([endswith], [rstrip], [startswith], [basename], [splitext]);
    - [PyVal], [Exn], [Result]: values of a configuration scope, exceptions
      and the three ways a Python call can end;
    - [Router]: the mount table ([greins/router.py]);
    - [GreinsApplication]: [setup_hooks], [load_file], [load],
      [_setup_hooks], [_do_hook];
    - [Boot]: the threads started by [load], as an interleaving machine. *)

From Stdlib Require Import ZArith Ascii.
From stdpp Require Import base gmap strings list relations.

Local Open Scope Z_scope.

(** ** Python string primitives *)

Module pystr.

Definition slash : ascii := "/"%char.
Definition dot : ascii := "."%char.

(** [s.startswith(c)] for a one-character [c]. *)
Definition startswith (c : ascii) (s : string) : bool :=
  match s with
  | String a _ => Ascii.eqb a c
  | EmptyString => false
  end.

(** [s.endswith(c)] for a one-character [c]. *)
Fixpoint endswith (c : ascii) (s : string) : bool :=
  match s with
  | EmptyString => false
  | String a EmptyString => Ascii.eqb a c
  | String _ s' => endswith c s'
  end.

(** [s.rstrip(c)]: every trailing occurrence of [c] is removed. *)
Fixpoint rstrip (c : ascii) (s : string) : string :=
  match s with
  | EmptyString => EmptyString
  | String a s' =>
      match rstrip c s' with
      | EmptyString => if Ascii.eqb a c then EmptyString else String a EmptyString
      | t => String a t
      end
  end.

(** [c in s]. *)
Fixpoint contains (c : ascii) (s : string) : bool :=
  match s with
  | EmptyString => false
  | String a s' => Ascii.eqb a c || contains c s'
  end.

(** [c * n]. *)
Fixpoint repeat (c : ascii) (n : nat) : string :=
  match n with
  | O => EmptyString
  | S n' => String c (repeat c n')
  end.

(** [s.rfind(c)]: the index of the last occurrence of [c], or [-1]. *)
Fixpoint rfind (c : ascii) (s : string) : Z :=
  match s with
  | EmptyString => -1
  | String a s' =>
      let i := rfind c s' in
      if 0 <=? i then i + 1
      else if Ascii.eqb a c then 0 else -1
  end.

(** [s[:n]] and [s[n:]] for [0 <= n]. *)
Fixpoint take (n : nat) (s : string) : string :=
  match n, s with
  | S n', String a s' => String a (take n' s')
  | _, _ => EmptyString
  end.

Fixpoint drop (n : nat) (s : string) : string :=
  match n, s with
  | S n', String _ s' => drop n' s'
  | _, _ => s
  end.

(** [all(ch == c for ch in s)]. *)
Fixpoint all_eq (c : ascii) (s : string) : bool :=
  match s with
  | EmptyString => true
  | String a s' => Ascii.eqb a c && all_eq c s'
  end.

End pystr.

(** ** [os.path] (posixpath), as far as [load_file] uses it *)

Module os_path.

(** [os.path.basename(p)]: [p[p.rfind('/') + 1:]]. *)
Definition basename (p : string) : string :=
  pystr.drop (Z.to_nat (pystr.rfind pystr.slash p + 1)) p.

(** [os.path.splitext(p)[0]] (genericpath._splitext): the extension starts
    at the last dot of the last path component, unless that component has
    only dots before it. *)
Definition splitext_root (p : string) : string :=
  let sepIndex := pystr.rfind pystr.slash p in
  let dotIndex := pystr.rfind pystr.dot p in
  if sepIndex <? dotIndex then
    let filename := pystr.drop (Z.to_nat (sepIndex + 1)) p in
    let stem := pystr.take (Z.to_nat (dotIndex - (sepIndex + 1))) filename in
    if pystr.all_eq pystr.dot stem then p
    else pystr.take (Z.to_nat dotIndex) p
  else p.

End os_path.

(** ** Values, exceptions, results *)

(** The values a configuration scope can bind: [None], integers, strings,
    lists, and opaque objects (functions, WSGI applications) compared by
    identity. *)
#[local] Unset Elimination Schemes.
Inductive PyVal : Type :=
  | PyNone
  | PyInt (n : Z)
  | PyStr (s : string)
  | PyList (items : list PyVal)
  | PyObj (id : nat).
#[local] Set Elimination Schemes.

(** Python truth value: [None], [0] and empty strings or containers are
    falsy, everything else is truthy. *)
Definition truthy (v : PyVal) : bool :=
  match v with
  | PyNone => false
  | PyInt n => negb (n =? 0)
  | PyStr s => negb (String.eqb s EmptyString)
  | PyList l => match l with [] => false | _ => true end
  | PyObj _ => true
  end.

Fixpoint pyval_eqb (a b : PyVal) {struct a} : bool :=
  match a, b with
  | PyNone, PyNone => true
  | PyInt n, PyInt m => n =? m
  | PyStr s, PyStr t => String.eqb s t
  | PyObj i, PyObj j => Nat.eqb i j
  | PyList l, PyList l' =>
      (fix go (l l' : list PyVal) {struct l} : bool :=
         match l, l' with
         | [], [] => true
         | x :: l, y :: l' => pyval_eqb x y && go l l'
         | _, _ => false
         end) l l'
  | _, _ => false
  end.

(** [a != b]. *)
Definition py_ne (a b : PyVal) : bool := negb (pyval_eqb a b).

(** Structural induction on values, through the items of a list. *)
Fixpoint PyVal_ind' (P : PyVal -> Prop)
    (HNone : P PyNone) (HInt : forall n, P (PyInt n))
    (HStr : forall s, P (PyStr s))
    (HList : forall l, Forall P l -> P (PyList l))
    (HObj : forall i, P (PyObj i)) (v : PyVal) {struct v} : P v :=
  match v with
  | PyNone => HNone
  | PyInt n => HInt n
  | PyStr s => HStr s
  | PyList l =>
      HList l ((fix all (l : list PyVal) : Forall P l :=
                  match l with
                  | [] => @List.Forall_nil _ P
                  | x :: l' =>
                      @List.Forall_cons _ P x l'
                        (PyVal_ind' P HNone HInt HStr HList HObj x) (all l')
                  end) l)
  | PyObj i => HObj i
  end.

(** An exception instance, with what the [except] clause of [load_file]
    reads from it: the files of its traceback and, for a [SyntaxError], the
    file it names. *)
Record Exn : Type := mkExn {
  exn_class : string;
  exn_tb_files : list string;
  exn_syntax_filename : option string   (* [Some f] iff isinstance(e, SyntaxError) *)
}.

(** How a call ends: it returns, an [Exception] propagates, or
    [SystemExit] does ([sys.exit(code)]; not an [Exception] subclass). *)
Inductive Result (A : Type) : Type :=
  | Ret (a : A)
  | Raise (e : Exn)
  | Exit (code : Z).
Arguments Ret {A} a.
Arguments Raise {A} e.
Arguments Exit {A} code.


(** ** The mount table *)

Module Router.

(** Modelled from the spec: [greins/router.py] is not among the sources.
    A MountPath has its trailing '/' stripped and a leading '/' enforced,
    so that the root stays "/". *)
Definition normalize (path : string) : string :=
  let s := pystr.rstrip pystr.slash path in
  if pystr.startswith pystr.slash s then s else String pystr.slash s.

(** Modelled from the spec: [Router.add_mount] of [greins/router.py]:
    normalizes the path, then inserts if absent; on a key already present
    the table is left as it is and the existing handler is returned. *)
Definition add_mount (path : string) (handler : PyVal)
    (mounts : gmap string PyVal) : PyVal * gmap string PyVal :=
  let key := normalize path in
  match mounts !! key with
  | Some existing => (existing, mounts)
  | None => (handler, <[key := handler]> mounts)
  end.

(** Modelled from the spec: the dispatch of [greins/router.py], walking
    the request path once: [seen] is the part already read; the deepest
    mounted prefix wins. *)
Fixpoint resolve_from (mounts : gmap string PyVal) (seen rest : string)
    : option PyVal :=
  match rest with
  | EmptyString => mounts !! seen
  | String c rest' =>
      match resolve_from mounts (seen +:+ String c EmptyString) rest' with
      | Some h => Some h
      | None => mounts !! seen
      end
  end.

(** Modelled from the spec: [resolve(request_path)], with [None] for
    NotFound. *)
Definition resolve (mounts : gmap string PyVal) (request_path : string)
    : option PyVal :=
  resolve_from mounts EmptyString request_path.

(** The spec's words for [resolve], as a relation: [h] is mounted at a
    prefix [k] of the request path and no mounted prefix is longer. *)
Definition longest_match (mounts : gmap string PyVal) (request_path : string)
    (h : PyVal) : Prop :=
  exists k, String.prefix k request_path = true /\ mounts !! k = Some h /\
    forall k', String.prefix k' request_path = true -> is_Some (mounts !! k') ->
      (String.length k' <= String.length k)%nat.

Definition no_match (mounts : gmap string PyVal) (request_path : string) : Prop :=
  forall k, String.prefix k request_path = true -> mounts !! k = None.

End Router.

(** ** The application object *)

(** A configuration scope after [execfile]: the [mounts] dict, as the
    sequence [iteritems()] yields, and the other names the unit bound. *)
Record Scope : Type := mkScope {
  mounts : list (string * PyVal);
  bindings : gmap string PyVal
}.

(** [cfg.get(name)]: the bound value, [None] when the name is unbound. *)
Definition scope_get (cfg : Scope) (name : string) : PyVal :=
  default PyNone (bindings cfg !! name).

(** A gunicorn setting, as [make_settings()] describes it. *)
Record Setting : Type := mkSetting {
  section : string;
  validator_of : PyVal -> Result unit;
  default_argspec : list string
}.

(** An entry of [self._hooks]. *)
Record Hook : Type := mkHook {
  handlers : list PyVal;
  validator : PyVal -> Result unit
}.

(** The proxy [setup_hooks] installs for an event: it has the argument
    list of the default handler and forwards to [_do_hook] under [name]. *)
Record Proxy : Type := mkProxy {
  proxy_name : string;
  proxy_spec : list string
}.

Inductive Level : Type := INFO | WARNING | ERROR | DEBUG.

Inductive LogRecord : Type :=
  | Log (level : Level) (msg : string)
  | LogException (msg : string) (e : Exn)               (* [logger.exception] *)
  | LogRouter (table : gmap string PyVal).              (* the router dump *)

(** What the model records besides the log: each run of a validator and
    each call of a hook handler, in the order they happen. *)
Inductive Event : Type :=
  | Validated (name : string) (handler : PyVal)
  | Called (name : string) (handler : PyVal) (argtuple : list PyVal).

(** The fields of a [GreinsApplication] and of the objects it owns. *)
Record State : Type := mkState {
  app_dir : string;
  _use_reloader : bool;
  _router : gmap string PyVal;
  _hooks : gmap string Hook;
  _reloader : list string;              (* files given to [add_extra_file] *)
  cfg_hooks : gmap string Proxy;        (* [self.cfg], the hook slots *)
  logger : list LogRecord;
  trace : list Event
}.

Definition set_router (f : gmap string PyVal -> gmap string PyVal) (st : State) : State :=
  mkState (app_dir st) (_use_reloader st) (f (_router st)) (_hooks st)
    (_reloader st) (cfg_hooks st) (logger st) (trace st).

Definition set_hooks (f : gmap string Hook -> gmap string Hook) (st : State) : State :=
  mkState (app_dir st) (_use_reloader st) (_router st) (f (_hooks st))
    (_reloader st) (cfg_hooks st) (logger st) (trace st).

Definition set_reloader (f : list string -> list string) (st : State) : State :=
  mkState (app_dir st) (_use_reloader st) (_router st) (_hooks st)
    (f (_reloader st)) (cfg_hooks st) (logger st) (trace st).

Definition set_cfg_hooks (f : gmap string Proxy -> gmap string Proxy) (st : State) : State :=
  mkState (app_dir st) (_use_reloader st) (_router st) (_hooks st)
    (_reloader st) (f (cfg_hooks st)) (logger st) (trace st).

Definition set_logger (f : list LogRecord -> list LogRecord) (st : State) : State :=
  mkState (app_dir st) (_use_reloader st) (_router st) (_hooks st)
    (_reloader st) (cfg_hooks st) (f (logger st)) (trace st).

Definition set_trace (f : list Event -> list Event) (st : State) : State :=
  mkState (app_dir st) (_use_reloader st) (_router st) (_hooks st)
    (_reloader st) (cfg_hooks st) (logger st) (f (trace st)).

(** *** The state-and-exception monad of the methods *)

Definition M (A : Type) : Type := State -> Result A * State.

Definition ret {A} (a : A) : M A := fun st => (Ret a, st).

Definition bind {A B} (m : M A) (k : A -> M B) : M B := fun st =>
  match m st with
  | (Ret a, st') => k a st'
  | (Raise e, st') => (Raise e, st')
  | (Exit c, st') => (Exit c, st')
  end.

Notation "'do' x <- m ;; k" := (bind m (fun x => k))
  (at level 10, x name, m at level 99, k at level 200).
Notation "'run' m ;; k" := (bind m (fun _ => k))
  (at level 10, m at level 99, k at level 200).

(** The result of a collaborator that does not touch the application. *)
Definition lift {A} (r : Result A) : M A := fun st => (r, st).

(** [raise e] and [sys.exit(code)]. *)
Definition raise {A} (e : Exn) : M A := lift (Raise e).
Definition sys_exit {A} (code : Z) : M A := lift (Exit code).

(** [try: body except Exception, e: handler(e)]: [SystemExit] passes. *)
Definition try_except (body : M unit) (handler : Exn -> M unit) : M unit := fun st =>
  match body st with
  | (Raise e, st') => handler e st'
  | other => other
  end.

(** [for x in xs: body(x)]. *)
Fixpoint for_each {A} (xs : list A) (body : A -> M unit) : M unit :=
  match xs with
  | [] => ret tt
  | x :: xs' => run body x ;; for_each xs' body
  end.

Definition modify (f : State -> State) : M unit := fun st => (Ret tt, f st).
Definition get {A} (f : State -> A) : M A := fun st => (Ret (f st), st).

Definition log (level : Level) (msg : string) : M unit :=
  modify (set_logger (fun l => l ++ [Log level msg])).

Definition log_exception (msg : string) (e : Exn) : M unit :=
  modify (set_logger (fun l => l ++ [LogException msg e])).

Definition emit (ev : Event) : M unit :=
  modify (set_trace (fun t => t ++ [ev])).

(** Modelled from the spec: [Reloader.add_extra_file] of
    [greins/reloader.py] is not among the sources; the watcher accepts
    "watch this file" registrations, kept here in the order they are made. *)
Definition add_extra_file (fname : string) : M unit :=
  modify (set_reloader (fun fs => fs ++ [fname])).

(** [self._router.add_mount(r, a)]. *)
Definition router_add_mount (r : string) (a : PyVal) : M PyVal := fun st =>
  let (h, table) := Router.add_mount r a (_router st) in
  (Ret h, set_router (fun _ => table) st).

(** The collaborators outside the repository: executing a unit's file in a
    fresh scope, gunicorn's [import_app], gunicorn's [make_settings], the
    directory listing of [glob], and calling a hook handler. *)
Class External : Type := {
  execfile : string -> Result Scope;
  import_app : string -> Result PyVal;
  make_settings : list (string * Setting);
  glob_py : string -> list string;
  call : PyVal -> list PyVal -> Result unit
}.

Section Methods.

Context `{External}.

(** *** [setup_hooks] *)

Definition setup_hooks : M unit :=
  for_each make_settings (fun '(name, obj) =>
    if String.eqb (section obj) "Server Hooks" then
      run modify (set_hooks (insert name (mkHook [] (validator_of obj)))) ;;
      modify (set_cfg_hooks (insert name (mkProxy name (default_argspec obj))))
    else ret tt).

(** *** [load_file] *)

(** [os.path.splitext(os.path.basename(cf))[0]]. *)
Definition cf_name (cf : string) : string :=
  os_path.splitext_root (os_path.basename cf).

(** The default of [load_file]: a unit that declared no mount is mounted by
    name, at ['/' + app_name], on what [import_app] gives for the name. *)
Definition default_mounts (cf : string) (cfg : Scope) : M (list (string * PyVal)) :=
  match mounts cfg with
  | [] =>
      let app_name := os_path.splitext_root (os_path.basename cf) in
      do a <- lift (import_app app_name) ;;
      ret [(String pystr.slash app_name, a)]
  | declared => ret declared
  end.

(** [if r] on a string. *)
Definition nonempty (r : string) : bool :=
  match r with EmptyString => false | _ => true end.

(** The path a mount key [r] is given to [add_mount] under. *)
Definition mount_path (r : string) : string :=
  let r := if pystr.endswith pystr.slash r then pystr.rstrip pystr.slash r else r in
  if nonempty r && negb (pystr.startswith pystr.slash r) then String pystr.slash r
  else r.

Definition strip_trailing (r : string) : M string :=
  if pystr.endswith pystr.slash r then
    run log WARNING ("Stripping trailing '/' from '" +:+ r +:+ "'") ;;
    ret (pystr.rstrip pystr.slash r)
  else ret r.

Definition add_leading (r : string) : M string :=
  if nonempty r && negb (pystr.startswith pystr.slash r) then
    run log WARNING ("Adding leading '/' to '" +:+ r +:+ "'") ;;
    ret (String pystr.slash r)
  else ret r.

(** One turn of the loop over [cfg['mounts'].iteritems()]. *)
Definition mount (ra : string * PyVal) : M unit :=
  let (r, a) := ra in
  do r <- strip_trailing r ;;
  do r <- add_leading r ;;
  do existing <- router_add_mount r a ;;
  if py_ne existing a then
    run log ERROR ("Found conflicting routes for '" +:+ r +:+ "'") ;;
    sys_exit 1
  else ret tt.

(** [hook['handlers'].append(handler)] on the entry of [name]. *)
Definition hook_append (name : string) (handler : PyVal) : M unit :=
  modify (set_hooks
    (alter (fun hook => mkHook (handlers hook ++ [handler]) (validator hook)) name)).

(** One turn of the loop of [_setup_hooks]. *)
Definition setup_hook (cfg : Scope) (item : string * Hook) : M unit :=
  let (name, hook) := item in
  let handler := scope_get cfg name in
  if truthy handler then
    run emit (Validated name handler) ;;
    run lift (validator hook handler) ;;
    hook_append name handler
  else ret tt.

(** [_setup_hooks(cfg)], the body under [@synchronize_hooks]; the lock
    itself is in [Boot], where threads interleave. *)
Definition _setup_hooks (cfg : Scope) : M unit :=
  do items <- get (fun st => map_to_list (_hooks st)) ;;
  for_each items (setup_hook cfg).

(** The [except Exception, e] clause of [load_file]. *)
Definition load_failed (cf : string) (e : Exn) : M unit :=
  do use_reloader <- get _use_reloader ;;
  run (if use_reloader then
         run for_each (exn_tb_files e) add_extra_file ;;
         match exn_syntax_filename e with
         | Some filename => add_extra_file filename
         | None => ret tt
         end
       else ret tt) ;;
  log_exception ("Exception reading config for " +:+ cf_name cf +:+ ":") e.

(** The two [logger.debug] calls that end [load_file]. *)
Definition load_finished (cf : string) : M unit :=
  run log DEBUG ("Finished loading " +:+ cf_name cf) ;;
  do table <- get _router ;;
  modify (set_logger (fun l => l ++ [LogRouter table])).

(** [load_file] from its first line to the mount loop: what a thread does
    before it first touches the shared table. *)
Definition load_start (cf : string) : M (Scope * list (string * PyVal)) :=
  run log INFO ("Loading configuration for " +:+ cf_name cf) ;;
  do cfg <- lift (execfile cf) ;;
  do declared <- default_mounts cf cfg ;;
  ret (cfg, declared).

(** The [try] block of [load_file]. *)
Definition load_body (cf : string) : M unit :=
  run log INFO ("Loading configuration for " +:+ cf_name cf) ;;
  do cfg <- lift (execfile cf) ;;
  do declared <- default_mounts cf cfg ;;
  run for_each declared mount ;;
  _setup_hooks cfg.

Definition load_file (cf : string) : M unit :=
  run try_except (load_body cf) (load_failed cf) ;;
  load_finished cf.

(** *** [_do_hook] *)

Definition KeyError : Exn := mkExn "KeyError" [] None.

(** [_do_hook(name, argtuple)], the body under [@synchronize_hooks]. *)
Definition _do_hook (name : string) (argtuple : list PyVal) : M unit :=
  do entry <- get (fun st => _hooks st !! name) ;;
  match entry with
  | None => raise KeyError
  | Some hook =>
      for_each (handlers hook) (fun handler =>
        run emit (Called name handler argtuple) ;;
        lift (call handler argtuple))
  end.

(** *** [load] *)

(** [load] up to its loop: a fresh router, the hook proxies, the reloader. *)
Definition load_begin : M unit :=
  run modify (set_router (fun _ => ∅)) ;;
  run setup_hooks ;;
  do use_reloader <- get _use_reloader ;;
  if use_reloader then modify (set_reloader (fun _ => [])) else ret tt.

(** One turn of the loop of [load], up to [t.start()]. *)
Definition load_dispatch (cf : string) : M unit :=
  do use_reloader <- get _use_reloader ;;
  if use_reloader then add_extra_file cf else ret tt.

(** [load] after its loop; what it returns is [self._router]. *)
Definition load_end : M unit :=
  log INFO "Greins booted successfully.".

End Methods.

(** ** The hook proxies *)

(** The [TypeError] of the interpreter for a call it cannot make; nothing
    reads its traceback. *)
Definition call_TypeError : Exn := mkExn "TypeError" [] None.

(** The one-character strings a string is made of. *)
Fixpoint chars (s : string) : list PyVal :=
  match s with
  | EmptyString => []
  | String c s' => PyStr (String c EmptyString) :: chars s'
  end.

(** The arguments [f( *argtuple)] calls [f] with: the items of a list or
    tuple, the characters of a string. [None], a number or an opaque object
    (an application, a function, gunicorn's server and worker objects) has
    no items: the call raises [TypeError] and [f] does not run. *)
Definition star_args (argtuple : PyVal) : Result (list PyVal) :=
  match argtuple with
  | PyList items => Ret items
  | PyStr s => Ret (chars s)
  | PyNone | PyInt _ | PyObj _ => Raise call_TypeError
  end.

(** What [hook_proxy_template] makes the second argument of [_do_hook]: the
    argument list between parentheses. Python reads [(a1, ..., an)] as a
    tuple, except for one name: [(a1)] is [a1] itself. *)
Definition proxy_argtuple (args : list PyVal) : PyVal :=
  match args with
  | [a] => a
  | _ => PyList args
  end.

Section Proxies.

Context `{External}.

(** [_do_hook(name, argtuple)] for any value of [argtuple]:
    [handler( *argtuple)] spreads it at each call. *)
Definition _do_hook_any (name : string) (argtuple : PyVal) : M unit :=
  do entry <- get (fun st => _hooks st !! name) ;;
  match entry with
  | None => raise KeyError
  | Some hook =>
      for_each (handlers hook) (fun handler =>
        do args <- lift (star_args argtuple) ;;
        run emit (Called name handler args) ;;
        lift (call handler args))
  end.

(** A call of the proxy [setup_hooks] builds for an event:
    [def proxy(a1, ..., an): greins._do_hook(name, (a1, ..., an))]. A call
    with another number of arguments raises [TypeError]. *)
Definition call_proxy (p : Proxy) (args : list PyVal) : M unit :=
  if Nat.eqb (length args) (length (proxy_spec p)) then
    _do_hook_any (proxy_name p) (proxy_argtuple args)
  else raise call_TypeError.

End Proxies.

(** ** The threads of [load] *)

(** Where a thread running [load_file(cf)] stands: before the call, in the
    loop over the mounts, waiting for [_hooks_lock], in the loop of
    [_setup_hooks] with the lock held, in the [except] clause, before the
    closing log calls; or over: returned, ended by [SystemExit], or ended
    by an exception that left [load_file]. *)
Inductive Task : Type :=
  | TStart (cf : string)
  | TMounts (cf : string) (cfg : Scope) (todo : list (string * PyVal))
  | TAcquire (cf : string) (cfg : Scope)
  | THooks (cf : string) (cfg : Scope) (todo : list (string * Hook))
  | TExcept (cf : string) (e : Exn)
  | TFinish (cf : string)
  | TDone
  | TExited (code : Z)
  | TCrashed (e : Exn).

(** Where [load] stands: before its loop, in it, or returned with
    [self._router]; [MCrashed] is an exception leaving [load]. *)
Inductive Main : Type :=
  | MBegin
  | MLoop (todo : list string)
  | MReturned
  | MCrashed.

(** The process: the application object, the owner of [_hooks_lock] (a
    thread index), the main thread and the threads [load] started. *)
Record Machine : Type := mkMachine {
  shared : State;
  _hooks_lock : option nat;
  main : Main;
  threads : list Task
}.

(** Modelled from the spec: [synchronized] of [greins/synchronization.py]
    is not among the sources. A method under [@synchronize_hooks] holds the
    one mutual-exclusion lock of the hook registry from entry to exit,
    however it exits: entering waits until the lock is free. *)
Definition lock_acquire (tid : nat) (lock : option nat) : option (option nat) :=
  match lock with
  | None => Some (Some tid)
  | Some _ => None
  end.

(** Modelled from the spec: leaving a method under [@synchronize_hooks]
    frees the lock. *)
Definition lock_release : option nat := None.

(** A thread of [threading.Thread] ends when its target returns or
    raises; the interpreter's thread bootstrap discards a [SystemExit]
    that reaches it: the thread is over and no other thread is touched. *)
Definition thread_end (cf : string) (r : Result unit) (next : Task) : Task :=
  match r with
  | Ret _ => next
  | Raise e => TExcept cf e
  | Exit code => TExited code
  end.

Section Boot.

Context `{External}.

(** One step of thread [tid]; [None] when it is over or has to wait. A
    step is what the thread does between two points where another thread
    can see a difference: the start up to the mount loop, one turn of the
    mount loop, taking the lock, one turn of [_setup_hooks], the [except]
    clause, the closing log calls. *)
Definition task_step (tid : nat) (t : Task) (lock : option nat) (st : State)
    : option (Task * option nat * State) :=
  match t with
  | TStart cf =>
      let '(r, st') := load_start cf st in
      Some (match r with
            | Ret (cfg, declared) => TMounts cf cfg declared
            | Raise e => TExcept cf e
            | Exit code => TExited code
            end, lock, st')
  | TMounts cf cfg (ra :: todo) =>
      let '(r, st') := mount ra st in
      Some (thread_end cf r (TMounts cf cfg todo), lock, st')
  | TMounts cf cfg [] => Some (TAcquire cf cfg, lock, st)
  | TAcquire cf cfg =>
      match lock_acquire tid lock with
      | Some lock' => Some (THooks cf cfg (map_to_list (_hooks st)), lock', st)
      | None => None
      end
  | THooks cf cfg (item :: todo) =>
      let '(r, st') := setup_hook cfg item st in
      match r with
      | Ret _ => Some (THooks cf cfg todo, lock, st')
      | _ => Some (thread_end cf r TDone, lock_release, st')
      end
  | THooks cf cfg [] => Some (TFinish cf, lock_release, st)
  | TExcept cf e =>
      let '(r, st') := load_failed cf e st in
      Some (match r with
            | Ret _ => TFinish cf
            | Raise e' => TCrashed e'
            | Exit code => TExited code
            end, lock, st')
  | TFinish cf =>
      let '(r, st') := load_finished cf st in
      Some (match r with
            | Ret _ => TDone
            | Raise e' => TCrashed e'
            | Exit code => TExited code
            end, lock, st')
  | TDone | TExited _ | TCrashed _ => None
  end.

(** One step of the main thread, inside [load]. *)
Definition main_step (m : Machine) : option Machine :=
  match main m with
  | MBegin =>
      let '(r, st') := load_begin (shared m) in
      Some (mkMachine st' None
              (match r with Ret _ => MLoop (glob_py (app_dir st')) | _ => MCrashed end)
              [])
  | MLoop (cf :: todo) =>
      let '(r, st') := load_dispatch cf (shared m) in
      Some (match r with
            | Ret _ => mkMachine st' (_hooks_lock m) (MLoop todo) (threads m ++ [TStart cf])
            | _ => mkMachine st' (_hooks_lock m) MCrashed (threads m)
            end)
  | MLoop [] =>
      let '(r, st') := load_end (shared m) in
      Some (mkMachine st' (_hooks_lock m)
              (match r with Ret _ => MReturned | _ => MCrashed end) (threads m))
  | MReturned | MCrashed => None
  end.

(** The scheduler: any thread that can move may move next. *)
Inductive step : Machine -> Machine -> Prop :=
  | step_main (m m' : Machine) :
      main_step m = Some m' -> step m m'
  | step_thread (m : Machine) (tid : nat) (t t' : Task) (lock' : option nat) (st' : State) :
      threads m !! tid = Some t ->
      task_step tid t (_hooks_lock m) (shared m) = Some (t', lock', st') ->
      step m (mkMachine st' lock' (main m) (<[tid := t']> (threads m))).

(** [n] steps of thread [tid] with no other thread in between. *)
Fixpoint task_run (n : nat) (tid : nat) (t : Task) (lock : option nat) (st : State)
    : Task * option nat * State :=
  match n with
  | O => (t, lock, st)
  | S n' =>
      match task_step tid t lock st with
      | Some (t', lock', st') => task_run n' tid t' lock' st'
      | None => (t, lock, st)
      end
  end.

(** A schedule names who moves at each turn: the main thread ([None]) or a
    started thread; [run_schedule] follows it while every turn can move. *)
Definition sched_step (who : option nat) (m : Machine) : option Machine :=
  match who with
  | None => main_step m
  | Some tid =>
      match threads m !! tid with
      | Some t =>
          match task_step tid t (_hooks_lock m) (shared m) with
          | Some (t', lock', st') =>
              Some (mkMachine st' lock' (main m) (<[tid := t']> (threads m)))
          | None => None
          end
      | None => None
      end
  end.

Fixpoint run_schedule (sched : list (option nat)) (m : Machine) : option Machine :=
  match sched with
  | [] => Some m
  | who :: sched' =>
      match sched_step who m with
      | Some m' => run_schedule sched' m'
      | None => None
      end
  end.

(** What the process serves from once [load] has returned: the table
    behind the reference [load] gave back, read when asked. *)
Definition serving (m : Machine) : option (gmap string PyVal) :=
  match main m with
  | MReturned => Some (_router (shared m))
  | _ => None
  end.

End Boot.

(** The process before [load], for an application directory and the
    reloader flag, as [init] leaves it. *)
Definition init (dir : string) (reloader : bool) : Machine :=
  mkMachine (mkState dir reloader ∅ ∅ [] ∅ [] []) None MBegin [].

(** * Notions used in the statements *)

(** [preserves R m]: running [m] relates the state before to the state
    after by [R], however [m] ends. *)
Definition preserves {A} (R : relation State) (m : M A) : Prop :=
  forall st, R st (m st).2.

(** [returns m]: [m] always returns; no exception, no exit. *)
Definition returns {A} (m : M A) : Prop :=
  forall st, exists a, (m st).1 = Ret a.

(** [keeps f]: the field [f] is the same before and after. *)
Definition keeps {B} (f : State -> B) : relation State :=
  fun st st' => f st' = f st.

(** The mount table only gains entries. *)
Definition grows : relation State :=
  fun st st' => _router st ⊆ _router st'.

(** Whether a log record is at level ERROR or is an exception report. *)
Definition is_error (r : LogRecord) : bool :=
  match r with
  | Log ERROR _ | LogException _ _ => true
  | _ => false
  end.

(** The records of an error in a log. *)
Definition errors (l : list LogRecord) : list LogRecord := List.filter is_error l.

(** The entry of [name] after one more handler. *)
Definition appended (handler : PyVal) (hook : Hook) : Hook :=
  mkHook (handlers hook ++ [handler]) (validator hook).

(** The event [name] is left alone: its entry is as before and no run of
    its validator is added to the trace. *)
Definition untouched (name : string) : relation State := fun st st' =>
  _hooks st' !! name = _hooks st !! name
  /\ forall v, Validated name v ∈ trace st' -> Validated name v ∈ trace st.

(** The application once [load_file(cf)] has logged that it starts. *)
Definition entered (cf : string) (st : State) : State :=
  set_logger (fun l => l ++ [Log INFO ("Loading configuration for " +:+ cf_name cf)]) st.

(** Whether a thread is inside [_setup_hooks]. *)
Definition in_hooks (t : Task) : bool :=
  match t with
  | THooks _ _ _ => true
  | _ => false
  end.

(** Where a thread stands when the [try] block has ended. *)
Definition after_body (cf : string) (r : Result unit) : Task :=
  match r with
  | Ret _ => TFinish cf
  | Raise e => TExcept cf e
  | Exit code => TExited code
  end.

(** How a thread ends, by how [load_file] ends. *)
Definition after_load (r : Result unit) : Task :=
  match r with
  | Ret _ => TDone
  | Raise e => TCrashed e
  | Exit code => TExited code
  end.


Section Notions.

Context `{External}.

(** What [_do_hook] does with one handler. *)
Definition invoke (name : string) (argtuple : list PyVal) (handler : PyVal) : M unit :=
  run emit (Called name handler argtuple) ;; lift (call handler argtuple).

(** A unit fails before the merge when its body raises, or when it declared
    no mount and the handler for its name cannot be resolved. *)
Definition fails_before_merge (cf : string) (e : Exn) : Prop :=
  execfile cf = Raise e
  \/ exists cfg, execfile cf = Ret cfg /\ mounts cfg = [] /\
                 import_app (cf_name cf) = Raise e.

End Notions.

(** ** Notions of the further properties *)

(** The warnings one turn of the mount loop logs for the key [r]. *)
Definition mount_warnings (r : string) : list LogRecord :=
  let r1 := if pystr.endswith pystr.slash r then pystr.rstrip pystr.slash r else r in
  (if pystr.endswith pystr.slash r
   then [Log WARNING ("Stripping trailing '/' from '" +:+ r +:+ "'")] else [])
  ++ (if nonempty r1 && negb (pystr.startswith pystr.slash r1)
      then [Log WARNING ("Adding leading '/' to '" +:+ r1 +:+ "'")] else []).

(** The entry of [name] after [_setup_hooks(cfg)], when the validator
    accepts what [cfg] binds. *)
Definition contributed (cfg : Scope) (name : string) (hook : Hook) : Hook :=
  if truthy (scope_get cfg name) then appended (scope_get cfg name) hook else hook.

(** The files the [except] clause of [load_file] gives the reloader for an
    exception. *)
Definition blamed (e : Exn) : list string :=
  exn_tb_files e ++ option_list (exn_syntax_filename e).

(** The file a thread is loading, while the thread is alive. *)
Definition task_file (t : Task) : option string :=
  match t with
  | TStart cf | TMounts cf _ _ | TAcquire cf _ | THooks cf _ _
  | TExcept cf _ | TFinish cf => Some cf
  | TDone | TExited _ | TCrashed _ => None
  end.

(** The fields of the application no method assigns after [init]. *)
Definition settled (st : State) : bool * string := (_use_reloader st, app_dir st).

(** Where [load] stands in the listing [files] of the application
    directory, in a process that runs with the flag [reloader] in [dir]:
    one thread for each file dispatched so far, in the order of the
    listing, each file watched before its thread exists. *)
Definition boot_inv (dir : string) (reloader : bool) (files : list string)
    (m : Machine) : Prop :=
  settled (shared m) = (reloader, dir)
  /\ (forall i t cf, threads m !! i = Some t -> task_file t = Some cf ->
        files !! i = Some cf)
  /\ exists dispatched todo,
       files = dispatched ++ todo
       /\ length (threads m) = length dispatched
       /\ (reloader = true ->
           forall cf, cf ∈ dispatched -> cf ∈ _reloader (shared m))
       /\ match main m with
          | MBegin => dispatched = []
          | MLoop todo' => todo' = todo
          | MReturned => todo = []
          | MCrashed => False
          end.

(** The table a unit's mounts can add: [k] is the normalization of a key of
    [declared], mounted on [h]. *)
Definition declares (declared : list (string * PyVal)) (k : string) (h : PyVal) : Prop :=
  exists r, (r, h) ∈ declared /\ k = Router.normalize r.

(** One turn of the loop of [setup_hooks]. *)
Definition register_setting (item : string * Setting) : M unit :=
  let (name, obj) := item in
  if String.eqb (section obj) "Server Hooks" then
    run modify (set_hooks (insert name (mkHook [] (validator_of obj)))) ;;
    modify (set_cfg_hooks (insert name (mkProxy name (default_argspec obj))))
  else ret tt.

Section Provenance.

Context `{External}.

(** [h] is what the unit in file [cf] mounts at the table key [k]: one of
    the mounts it declares or, when it declares none, the one of its name. *)
Definition unit_mounts (cf : string) (k : string) (h : PyVal) : Prop :=
  exists cfg, execfile cf = Ret cfg /\
    (declares (mounts cfg) k h
     \/ (mounts cfg = [] /\ import_app (cf_name cf) = Ret h
         /\ k = String pystr.slash (cf_name cf))).

(** [h] is what the unit in file [cf] binds the event [name] to, a truthy
    value the validator [v] accepts. *)
Definition unit_hooks (cf : string) (name : string) (v : PyVal -> Result unit)
    (h : PyVal) : Prop :=
  exists cfg, execfile cf = Ret cfg /\ scope_get cfg name = h
    /\ truthy h = true /\ v h = Ret tt.

(** What a thread carries is what its unit gave: the scope is the one
    [execfile] returned for its file, the mounts still to make are the
    unit's, and the entries it took from the registry have the validators
    the registry has. *)
Definition thread_inv (st : State) (t : Task) : Prop :=
  match t with
  | TMounts cf cfg todo =>
      execfile cf = Ret cfg
      /\ forall r a, (r, a) ∈ todo -> unit_mounts cf (Router.normalize r) a
  | TAcquire cf cfg => execfile cf = Ret cfg
  | THooks cf cfg todo =>
      execfile cf = Ret cfg
      /\ forall n hk hook, (n, hk) ∈ todo -> _hooks st !! n = Some hook ->
           validator hook = validator hk
  | _ => True
  end.

(** The table and the registry hold nothing but what the units in [files]
    gave them. *)
Definition provenance (files : list string) (m : Machine) : Prop :=
  (forall i t, threads m !! i = Some t -> thread_inv (shared m) t)
  /\ (forall k h, _router (shared m) !! k = Some h ->
        exists cf, cf ∈ files /\ unit_mounts cf k h)
  /\ (forall name hook h, _hooks (shared m) !! name = Some hook ->
        h ∈ handlers hook ->
        exists cf, cf ∈ files /\ unit_hooks cf name (validator hook) h).

End Provenance.

(** * Scenarios

    Three application directories and the collaborators around them, for
    running the definitions above on concrete input. *)

Module Scenario.

Definition BlogApp : PyVal := PyObj 1.
Definition ApiApp : PyVal := PyObj 2.
Definition AppX : PyVal := PyObj 3.
Definition AppY : PyVal := PyObj 4.
Definition AppZ : PyVal := PyObj 5.
Definition ShopApp : PyVal := PyObj 6.
Definition QuietApp : PyVal := PyObj 7.
Definition h1 : PyVal := PyObj 11.
Definition h2 : PyVal := PyObj 12.
Definition h3 : PyVal := PyObj 13.

Definition TypeError : Exn := mkExn "TypeError" ["gunicorn/config.py"] None.
Definition ImportError : Exn := mkExn "ImportError" ["gunicorn/util.py"] None.
Definition IOError : Exn := mkExn "IOError" [] None.
Definition SyntaxError : Exn :=
  mkExn "SyntaxError" ["greins/app.py"] (Some "/srv/mixed/broken.py").
Definition Boom : Exn := mkExn "RuntimeError" ["hooks.py"] None.

(** gunicorn's [validate_callable]: only a callable object passes. *)
Definition validate_callable (v : PyVal) : Result unit :=
  match v with
  | PyObj _ => Ret tt
  | _ => Raise TypeError
  end.

Definition accept_any (v : PyVal) : Result unit := Ret tt.

Definition settings : list (string * Setting) :=
  [ ("workers", mkSetting "Worker Processes" accept_any []);
    ("on_starting", mkSetting "Server Hooks" validate_callable ["server"]);
    ("pre_fork", mkSetting "Server Hooks" validate_callable ["server"; "worker"]) ].

(** A unit that binds three hook names to falsy values. *)
Definition quiet_bindings : gmap string PyVal :=
  <["pre_fork" := PyNone]>
    (<["on_starting" := PyInt 0]> {[ "worker_exit" := PyList [] ]}).

(** A unit that binds [pre_fork] to something that is not callable, and
    one that binds it to a handler. *)
Definition shop_scope : Scope :=
  mkScope [("shop/", ShopApp)] {[ "pre_fork" := PyInt 7 ]}.

Definition hooked_scope : Scope :=
  mkScope [("/hooked", ApiApp)] {[ "pre_fork" := h1 ]}.

Definition files : gmap string (Result Scope) :=
  list_to_map
    [ ("/srv/apps/blog.py", Ret (mkScope [] ∅));
      ("/srv/apps/api.py", Ret (mkScope [("/api", ApiApp)] ∅));
      ("/srv/clash/a.py", Ret (mkScope [("/shared", AppX)] ∅));
      ("/srv/clash/b.py", Ret (mkScope [("/shared", AppY)] ∅));
      ("/srv/clash/c.py", Ret (mkScope [("/late", AppZ)] ∅));
      ("/srv/mixed/shop.py", Ret shop_scope);
      ("/srv/mixed/broken.py", Raise SyntaxError);
      ("/srv/mixed/quiet.py",
        Ret (mkScope [("/quiet", QuietApp)] quiet_bindings)) ].

Definition directories : gmap string (list string) :=
  list_to_map
    [ ("/srv/apps", ["/srv/apps/blog.py"; "/srv/apps/api.py"]);
      ("/srv/clash", ["/srv/clash/a.py"; "/srv/clash/b.py"; "/srv/clash/c.py"]);
      ("/srv/mixed",
        ["/srv/mixed/shop.py"; "/srv/mixed/broken.py"; "/srv/mixed/quiet.py"]) ].

#[export] Instance world : External := {|
  execfile cf := default (Raise IOError) (files !! cf);
  import_app name :=
    if String.eqb name "blog" then Ret BlogApp else Raise ImportError;
  make_settings := settings;
  glob_py dir := default [] (directories !! dir);
  call handler argtuple :=
    if pyval_eqb handler h2 then Raise Boom else Ret tt
|}.

(** An application whose [pre_fork] event has three handlers, registered
    in the order [h1], [h2], [h3]. *)
Definition three_hooks : State :=
  mkState "/srv/apps" false ∅
    {[ "pre_fork" := mkHook [h1; h2; h3] validate_callable ]} [] ∅ [] [].

(** The application after [load_begin], in a given directory. *)
Definition booted (dir : string) : State :=
  (load_begin (mkState dir false ∅ ∅ [] ∅ [] [])).2.

(** Main thread first, up to the return of [load]; then the three threads
    of "/srv/clash" one after the other, each to its end. *)
Definition clash_schedule : list (option nat) :=
  replicate 5 None ++ replicate 8 (Some 0%nat) ++ replicate 2 (Some 1%nat)
  ++ replicate 8 (Some 2%nat).


(** An application with one path mounted. *)
Definition mounted : State :=
  mkState "/srv/apps" false {[ "/a" := AppX ]} ∅ [] ∅ [] [].

(** A table with a path mounted below another. *)
Definition nested : gmap string PyVal :=
  <["/blog" := BlogApp]> {[ "/blog/admin" := ApiApp ]}.

(** The process of "/srv/clash" after [clash_schedule]. *)
Definition clash_run : option Machine :=
  run_schedule clash_schedule (init "/srv/clash" false).

End Scenario.

(** * More scenarios

    A directory whose one unit claims a path twice, hooks registered
    before a unit loads, and a process that runs with the reloader on. *)

Module Fixtures.

(** A unit whose keys 'foo' and '/foo/' name the same path, in a directory
    with a unit that mounts one application and binds a hook. *)
Definition twice_scope : Scope :=
  mkScope [("late", Scenario.AppZ); ("foo", Scenario.AppX);
           ("/foo/", Scenario.AppY); ("never", Scenario.BlogApp)] ∅.

Definition site : External := {|
  execfile cf :=
    if String.eqb cf "/srv/site/site.py" then Ret twice_scope
    else if String.eqb cf "/srv/site/hooked.py" then Ret Scenario.hooked_scope
    else Raise Scenario.IOError;
  import_app name := Raise Scenario.ImportError;
  make_settings := Scenario.settings;
  glob_py dir :=
    if String.eqb dir "/srv/site"
    then ["/srv/site/site.py"; "/srv/site/hooked.py"] else [];
  call handler argtuple := Ret tt
|}.

(** The table of "site.py" when its loop reaches '/foo/'. *)
Definition site_before : State :=
  (for_each [("late", Scenario.AppZ); ("foo", Scenario.AppX)] mount
     (entered "/srv/site/site.py" Scenario.mounted)).2.

(** gunicorn's server object. *)
Definition server : PyVal := PyObj 20.

(** An application with one handler for an event of one argument, and one
    with one handler for an event of two. *)
Definition started : State :=
  mkState "/srv/apps" false ∅
    {[ "on_starting" := mkHook [Scenario.h1] Scenario.validate_callable ]} [] ∅ [] [].

Definition forking : State :=
  mkState "/srv/apps" false ∅
    {[ "pre_fork" := mkHook [Scenario.h3] Scenario.validate_callable ]} [] ∅ [] [].

(** The application of "/srv/mixed" with the reloader on, before [load]. *)
Definition watching : State := mkState "/srv/mixed" true ∅ ∅ [] ∅ [] [].

(** "/srv/mixed" with the reloader on: [load] returns, then the thread of
    "broken.py" runs to its end. *)
Definition watched_schedule : list (option nat) :=
  replicate 5 None ++ replicate 3 (Some 1%nat).

Definition watched_run : option Machine :=
  @run_schedule Scenario.world watched_schedule (init "/srv/mixed" true).

Definition watched : Machine := default (init "/srv/mixed" true) watched_run.

(** "/srv/site": [load] returns, then the thread of "hooked.py" runs to
    its end. *)
Definition hooked_schedule : list (option nat) :=
  replicate 4 None ++ replicate 8 (Some 1%nat).

Definition hooked_run : option Machine :=
  @run_schedule site hooked_schedule (init "/srv/site" false).

Definition hooked : Machine := default (init "/srv/site" false) hooked_run.

End Fixtures.

(** * Properties *)

(** ** Values *)

Lemma pyval_eqb_eq (a b : PyVal) : pyval_eqb a b = true <-> a = b.
Proof.
  revert b. induction a as [|n|s|l IH|i] using PyVal_ind'; intros [|m|t|l'|j];
    simpl; try (split; [discriminate|congruence]); try tauto.
  - rewrite Z.eqb_eq. split; congruence.
  - rewrite String.eqb_eq. split; congruence.
  - revert l'. induction IH as [|x l Hx _ IHl]; intros [|y l']; simpl;
      try (split; [discriminate|congruence]); try tauto.
    rewrite andb_true_iff, Hx.
    specialize (IHl l'). split.
    + intros [-> H]. apply IHl in H. congruence.
    + intros [= -> ->]. split; [done|]. by apply IHl.
  - rewrite Nat.eqb_eq. split; congruence.
Qed.

Global Instance PyVal_eq_dec : EqDecision PyVal.
Proof.
  intros a b. destruct (pyval_eqb a b) eqn:E.
  - left. by apply pyval_eqb_eq.
  - right. intros H. apply pyval_eqb_eq in H. congruence.
Defined.

Lemma py_ne_false (a b : PyVal) : py_ne a b = false <-> a = b.
Proof. unfold py_ne. rewrite negb_false_iff. apply pyval_eqb_eq. Qed.

Lemma py_ne_true (a b : PyVal) : py_ne a b = true <-> a <> b.
Proof.
  unfold py_ne. rewrite negb_true_iff, <- not_true_iff_false.
  by rewrite pyval_eqb_eq.
Qed.

(** ** Strings *)

Lemma append_nil_l (s : string) : EmptyString +:+ s = s.
Proof. reflexivity. Qed.

Lemma append_cons (a : ascii) (s t : string) :
  String a s +:+ t = String a (s +:+ t).
Proof. reflexivity. Qed.

Lemma append_nil_r (s : string) : s +:+ EmptyString = s.
Proof. induction s as [|a s IH]; [done|]. by rewrite append_cons, IH. Qed.

Lemma append_assoc (s t u : string) : (s +:+ t) +:+ u = s +:+ (t +:+ u).
Proof. induction s as [|a s IH]; [done|]. by rewrite !append_cons, IH. Qed.

Lemma length_append (s t : string) :
  String.length (s +:+ t) = (String.length s + String.length t)%nat.
Proof. induction s as [|a s IH]; [done|]. rewrite append_cons. simpl. by rewrite IH. Qed.

Lemma prefix_nil_r (k : string) :
  String.prefix k EmptyString = true <-> k = EmptyString.
Proof. destruct k; simpl; split; congruence. Qed.

Lemma prefix_cons_r (k : string) (c : ascii) (s : string) :
  String.prefix k (String c s) = true <->
  k = EmptyString \/ exists k', k = String c k' /\ String.prefix k' s = true.
Proof.
  destruct k as [|a k]; simpl.
  - split; [by left|done].
  - destruct (ascii_dec a c) as [->|Hne]; split.
    + intros Hk. right. by exists k.
    + intros [?|(k' & [= ->] & Hk)]; [done|exact Hk].
    + done.
    + intros [?|(k' & [= ? ?] & _)]; [done|]. by subst.
Qed.

Lemma endswith_cons (c a : ascii) (s : string) :
  s <> EmptyString -> pystr.endswith c (String a s) = pystr.endswith c s.
Proof. by destruct s. Qed.

Lemma rstrip_endswith (c : ascii) (s : string) :
  pystr.endswith c (pystr.rstrip c s) = false.
Proof.
  induction s as [|a s IH]; [done|]. simpl.
  destruct (pystr.rstrip c s) as [|b t] eqn:E.
  - destruct (Ascii.eqb a c) eqn:Hac; [done|]. simpl. exact Hac.
  - by rewrite endswith_cons.
Qed.

Lemma rstrip_id (c : ascii) (s : string) :
  pystr.endswith c s = false -> pystr.rstrip c s = s.
Proof.
  induction s as [|a s IH]; [done|]. intros Hend.
  destruct s as [|b s].
  - simpl in *. by rewrite Hend.
  - rewrite endswith_cons in Hend by done.
    change (pystr.rstrip c (String a (String b s)))
      with (match pystr.rstrip c (String b s) with
            | EmptyString =>
                if Ascii.eqb a c then EmptyString else String a EmptyString
            | t => String a t
            end).
    by rewrite (IH Hend).
Qed.

Lemma rstrip_repeat (c : ascii) (s : string) :
  exists n, s = pystr.rstrip c s +:+ pystr.repeat c n.
Proof.
  induction s as [|a s [n IH]]; [by exists O|]. simpl.
  destruct (pystr.rstrip c s) as [|b t] eqn:E.
  - destruct (Ascii.eqb_spec a c) as [->|Hne].
    + exists (S n). rewrite append_nil_l in *. simpl. by rewrite <- IH.
    + exists n. rewrite append_nil_l in IH. by rewrite append_cons, append_nil_l, <- IH.
  - exists n. by rewrite append_cons, <- IH.
Qed.

Lemma rstrip_idemp (c : ascii) (s : string) :
  pystr.rstrip c (pystr.rstrip c s) = pystr.rstrip c s.
Proof. apply rstrip_id, rstrip_endswith. Qed.

Lemma rstrip_empty (c : ascii) (s : string) :
  pystr.rstrip c s = EmptyString <-> pystr.all_eq c s = true.
Proof.
  induction s as [|a s IH]; [done|]. simpl.
  destruct (pystr.rstrip c s) as [|b t] eqn:E.
  - assert (pystr.all_eq c s = true) as -> by (by apply IH).
    rewrite andb_true_r. by destruct (Ascii.eqb a c).
  - assert (pystr.all_eq c s = false) as ->.
    { destruct (pystr.all_eq c s); [|done]. by destruct IH as [_ IH']; discriminate IH'. }
    by rewrite andb_false_r.
Qed.

Lemma startswith_app (c : ascii) (s t : string) :
  s <> EmptyString -> pystr.startswith c (s +:+ t) = pystr.startswith c s.
Proof. by destruct s. Qed.

Lemma startswith_rstrip (c : ascii) (s : string) :
  pystr.rstrip c s <> EmptyString ->
  pystr.startswith c (pystr.rstrip c s) = pystr.startswith c s.
Proof.
  intros Hne. destruct (rstrip_repeat c s) as [n Hn].
  rewrite Hn at 2. by rewrite startswith_app.
Qed.

(** ** The mount table *)

Lemma mount_path_rstrip (r : string) :
  mount_path r =
    let s := pystr.rstrip pystr.slash r in
    if nonempty s && negb (pystr.startswith pystr.slash s)
    then String pystr.slash s else s.
Proof.
  unfold mount_path. destruct (pystr.endswith pystr.slash r) eqn:E; [done|].
  by rewrite rstrip_id.
Qed.

Lemma mount_unfold (r : string) (a : PyVal) (st : State) :
  mount (r, a) st
  = (do existing <- router_add_mount (mount_path r) a ;;
     if py_ne existing a then
       run log ERROR ("Found conflicting routes for '" +:+ mount_path r +:+ "'") ;;
       sys_exit 1
     else ret tt) (set_logger (fun l => l ++ mount_warnings r) st).
Proof.
  unfold mount, strip_trailing, add_leading, mount_path, mount_warnings.
  cbv zeta. unfold bind, log, modify, ret, router_add_mount, sys_exit, lift.
  destruct st.
  destruct (pystr.endswith pystr.slash r); cbn beta iota;
    [destruct (nonempty (pystr.rstrip pystr.slash r)
               && negb (pystr.startswith pystr.slash (pystr.rstrip pystr.slash r)))
    |destruct (nonempty r && negb (pystr.startswith pystr.slash r))];
    unfold set_logger; simpl; rewrite <- ?app_assoc, ?app_nil_r; reflexivity.
Qed.

Lemma normalize_startswith (path : string) :
  pystr.startswith pystr.slash (Router.normalize path) = true.
Proof.
  unfold Router.normalize.
  by destruct (pystr.startswith pystr.slash (pystr.rstrip pystr.slash path)) eqn:E.
Qed.

Lemma normalize_no_trailing (path : string) :
  Router.normalize path = String pystr.slash EmptyString \/
  pystr.endswith pystr.slash (Router.normalize path) = false.
Proof.
  unfold Router.normalize.
  pose proof (rstrip_endswith pystr.slash path) as Hend.
  destruct (pystr.rstrip pystr.slash path) as [|a s] eqn:E; [by left|right].
  destruct (pystr.startswith pystr.slash (String a s)); [done|].
  by rewrite endswith_cons.
Qed.

Lemma normalize_repeat (path : string) :
  exists n,
    (if pystr.startswith pystr.slash path then path else String pystr.slash path)
    = Router.normalize path +:+ pystr.repeat pystr.slash n.
Proof.
  unfold Router.normalize.
  destruct (rstrip_repeat pystr.slash path) as [n Hn].
  destruct (pystr.rstrip pystr.slash path) as [|a s] eqn:E.
  - rewrite append_nil_l in Hn. subst path. destruct n as [|n]; simpl.
    + by exists O.
    + by exists n.
  - assert (pystr.startswith pystr.slash path
            = pystr.startswith pystr.slash (String a s)) as ->.
    { rewrite <- E. symmetry. apply startswith_rstrip. by rewrite E. }
    exists n. destruct (pystr.startswith pystr.slash (String a s)); [done|].
    by rewrite append_cons, <- Hn.
Qed.

Lemma normalize_idemp (path : string) :
  Router.normalize (Router.normalize path) = Router.normalize path.
Proof.
  destruct (normalize_no_trailing path) as [->|Hend]; [done|].
  unfold Router.normalize at 1. rewrite rstrip_id by done.
  by rewrite normalize_startswith.
Qed.

(** The loader's own trimming and the table's normalization agree: what
    [add_mount] stores for a key the loader has trimmed is the normalization
    of the key as the unit wrote it. *)
Lemma normalize_mount_path (r : string) :
  Router.normalize (mount_path r) = Router.normalize r.
Proof.
  rewrite mount_path_rstrip. cbv zeta. unfold Router.normalize at 2.
  pose proof (rstrip_endswith pystr.slash r) as Hend.
  destruct (pystr.rstrip pystr.slash r) as [|a s] eqn:E; [done|].
  destruct (pystr.startswith pystr.slash (String a s)) eqn:Hs;
    cbn [nonempty andb negb].
  - unfold Router.normalize. rewrite rstrip_id by done. by rewrite Hs.
  - unfold Router.normalize. rewrite rstrip_id; [done|].
    by rewrite endswith_cons.
Qed.

Lemma add_mount_fst (path : string) (handler : PyVal) (table : gmap string PyVal) :
  (Router.add_mount path handler table).1 =
    default handler (table !! Router.normalize path).
Proof. unfold Router.add_mount. by destruct (table !! _). Qed.

Lemma add_mount_lookup (path : string) (handler : PyVal) (table : gmap string PyVal) :
  (Router.add_mount path handler table).2 !! Router.normalize path
  = Some (Router.add_mount path handler table).1.
Proof.
  unfold Router.add_mount. destruct (table !! _) eqn:E; simpl; [done|].
  by rewrite lookup_insert_eq.
Qed.

Lemma add_mount_subseteq (path : string) (handler : PyVal) (table : gmap string PyVal) :
  table ⊆ (Router.add_mount path handler table).2.
Proof.
  unfold Router.add_mount. destruct (table !! _) eqn:E; simpl; [done|].
  by apply insert_subseteq.
Qed.

Lemma add_mount_present (path : string) (handler h : PyVal) (table : gmap string PyVal) :
  table !! Router.normalize path = Some h ->
  Router.add_mount path handler table = (h, table).
Proof. unfold Router.add_mount. by intros ->. Qed.

Lemma add_mount_absent (path : string) (handler : PyVal) (table : gmap string PyVal) :
  table !! Router.normalize path = None ->
  Router.add_mount path handler table
  = (handler, <[Router.normalize path := handler]> table).
Proof. unfold Router.add_mount. by intros ->. Qed.

Lemma resolve_from_none (table : gmap string PyVal) (rest seen : string) :
  Router.resolve_from table seen rest = None <->
  forall k, String.prefix k rest = true -> table !! (seen +:+ k) = None.
Proof.
  revert seen. induction rest as [|c rest IH]; intros seen; cbn [Router.resolve_from].
  - split.
    + intros Hs k ->%prefix_nil_r. by rewrite append_nil_r.
    + intros Hk. specialize (Hk EmptyString eq_refl). by rewrite append_nil_r in Hk.
  - destruct (Router.resolve_from table (seen +:+ String c EmptyString) rest) eqn:E.
    + split; [done|]. intros Hk.
      assert (Router.resolve_from table (seen +:+ String c EmptyString) rest = None)
        as E'; [|congruence].
      apply IH. intros k Hpre. rewrite append_assoc, append_cons, append_nil_l.
      apply Hk. apply prefix_cons_r. right. by exists k.
    + rewrite IH in E. split.
      * intros Hs k [->|(k' & -> & Hk')]%prefix_cons_r.
        -- by rewrite append_nil_r.
        -- specialize (E k' Hk').
           by rewrite append_assoc, append_cons, append_nil_l in E.
      * intros Hk. specialize (Hk EmptyString eq_refl). by rewrite append_nil_r in Hk.
Qed.

Lemma resolve_from_some (table : gmap string PyVal) (rest seen : string) (h : PyVal) :
  Router.resolve_from table seen rest = Some h <->
  exists k, String.prefix k rest = true /\ table !! (seen +:+ k) = Some h /\
    forall k', String.prefix k' rest = true -> is_Some (table !! (seen +:+ k')) ->
      (String.length k' <= String.length k)%nat.
Proof.
  revert seen h. induction rest as [|c rest IH]; intros seen h; cbn [Router.resolve_from].
  - split.
    + intros Hs. exists EmptyString. rewrite append_nil_r. split; [done|].
      split; [done|]. by intros k' ->%prefix_nil_r _.
    + intros (k & ->%prefix_nil_r & Hk & _). by rewrite append_nil_r in Hk.
  - destruct (Router.resolve_from table (seen +:+ String c EmptyString) rest) as [h'|] eqn:E.
    + apply IH in E as (k & Hpre & Hk & Hmax).
      rewrite append_assoc, append_cons, append_nil_l in Hk.
      assert (forall k', String.prefix k' (String c rest) = true ->
                is_Some (table !! (seen +:+ k')) ->
                (String.length k' <= String.length (String c k))%nat) as Hmax'.
      { intros k' [->|(k'' & -> & Hk'')]%prefix_cons_r Hsome; simpl; [lia|].
        apply le_n_S, Hmax; [done|].
        by rewrite append_assoc, append_cons, append_nil_l. }
      split.
      * intros [= <-]. exists (String c k). split; [|done].
        apply prefix_cons_r. right. by exists k.
      * intros (k0 & Hpre0 & Hk0 & Hmax0). f_equal.
        assert (String.length k0 = String.length (String c k)) as Hlen.
        { apply Nat.le_antisymm.
          - apply Hmax'; [done|]. by rewrite Hk0.
          - apply Hmax0; [|by rewrite Hk].
            apply prefix_cons_r. right. by exists k. }
        apply prefix_cons_r in Hpre0 as [->|(k1 & -> & Hk1)]; [done|].
        simpl in Hlen. injection Hlen as Hlen.
        assert (k1 = k) as ->; [|congruence].
        apply String.prefix_correct in Hk1, Hpre. rewrite Hlen in Hk1. congruence.
    + rewrite resolve_from_none in E. split.
      * intros Hs. exists EmptyString. rewrite append_nil_r. split; [done|].
        split; [done|]. intros k' [->|(k'' & -> & Hk'')]%prefix_cons_r Hsome; [done|].
        specialize (E k'' Hk'').
        rewrite append_assoc, append_cons, append_nil_l in E.
        rewrite E in Hsome. by destruct Hsome.
      * intros (k & [->|(k'' & -> & Hk'')]%prefix_cons_r & Hk & _).
        -- by rewrite append_nil_r in Hk.
        -- specialize (E k'' Hk'').
           rewrite append_assoc, append_cons, append_nil_l in E. congruence.
Qed.

(** ** Reasoning about the methods *)

Global Instance keeps_preorder {B} (f : State -> B) : PreOrder (keeps f).
Proof.
  split.
  - by intros st.
  - intros st1 st2 st3 H12 H23. unfold keeps in *. congruence.
Qed.

Global Instance grows_preorder : PreOrder grows.
Proof.
  split.
  - intros st. unfold grows. reflexivity.
  - intros st1 st2 st3 H12 H23. unfold grows in *. by etrans.
Qed.

Section Frames.

Context {A B : Type} (R : relation State) `{!PreOrder R}.

Lemma preserves_ret (a : A) : preserves R (ret a).
Proof. by intros st. Qed.

Lemma preserves_lift (r : Result A) : preserves R (lift r).
Proof. by intros st. Qed.

Lemma preserves_get (f : State -> A) : preserves R (get f).
Proof. by intros st. Qed.

Lemma preserves_modify (f : State -> State) :
  (forall st, R st (f st)) -> preserves R (modify f).
Proof. intros Hf st. apply Hf. Qed.

Lemma preserves_bind (m : M A) (k : A -> M B) :
  preserves R m -> (forall a, preserves R (k a)) -> preserves R (bind m k).
Proof.
  intros Hm Hk st. unfold bind. specialize (Hm st).
  destruct (m st) as [[a|e|c] st1]; simpl in *; [|done..].
  etrans; [exact Hm|]. apply Hk.
Qed.

Lemma preserves_for_each (xs : list A) (body : A -> M unit) :
  (forall x, x ∈ xs -> preserves R (body x)) -> preserves R (for_each xs body).
Proof.
  induction xs as [|x xs IH]; intros Hbody; simpl.
  - by intros st.
  - intros st. unfold bind.
    pose proof (Hbody x (list_elem_of_here _ _) st) as Hx.
    destruct (body x st) as [[[]|e|c] st1]; simpl in *; [|done..].
    etrans; [exact Hx|]. apply IH. intros y Hy. apply Hbody. by right.
Qed.

End Frames.

Lemma preserves_try_except (R : relation State) `{!PreOrder R}
    (body : M unit) (handler : Exn -> M unit) :
  preserves R body -> (forall e, preserves R (handler e)) ->
  preserves R (try_except body handler).
Proof.
  intros Hb Hh st. unfold try_except. specialize (Hb st).
  destruct (body st) as [[[]|e|c] st1]; simpl in *; [done| |done].
  etrans; [exact Hb|]. apply Hh.
Qed.

Section Returns.

Context {A B : Type}.

Lemma returns_ret (a : A) : returns (ret a).
Proof. intros st. by exists a. Qed.

Lemma returns_get (f : State -> A) : returns (get f).
Proof. intros st. by exists (f st). Qed.

Lemma returns_modify (f : State -> State) : returns (modify f).
Proof. intros st. by exists tt. Qed.

Lemma returns_bind (m : M A) (k : A -> M B) :
  returns m -> (forall a, returns (k a)) -> returns (bind m k).
Proof.
  intros Hm Hk st. unfold bind. destruct (Hm st) as [a Ha].
  destruct (m st) as [r st1]; simpl in Ha; subst r. apply Hk.
Qed.

Lemma returns_for_each (xs : list A) (body : A -> M unit) :
  (forall x, returns (body x)) -> returns (for_each xs body).
Proof.
  intros Hbody. induction xs as [|x xs IH]; simpl.
  - intros st. by exists tt.
  - intros st. unfold bind. destruct (Hbody x st) as [[] Ha].
    destruct (body x st) as [r st1]; simpl in Ha; subst r. apply IH.
Qed.

End Returns.

Lemma returns_unit (m : M unit) (st : State) :
  returns m -> m st = (Ret tt, (m st).2).
Proof.
  intros Hm. destruct (Hm st) as [[] Ha].
  destruct (m st) as [r st1]; simpl in *. by subst.
Qed.

Create HintDb greins discriminated.

#[export] Hint Unfold log log_exception emit add_extra_file raise sys_exit
  hook_append : greins.

Lemma preserves_router_add_mount {B} (f : State -> B) (r : string) (a : PyVal) :
  (forall g st, f (set_router g st) = f st) ->
  preserves (keeps f) (router_add_mount r a).
Proof.
  intros Hf st. unfold router_add_mount, keeps.
  destruct (Router.add_mount r a (_router st)) as [h table]. simpl. apply Hf.
Qed.

Lemma grows_router_add_mount (r : string) (a : PyVal) :
  preserves grows (router_add_mount r a).
Proof.
  intros st. unfold router_add_mount, grows.
  pose proof (add_mount_subseteq r a (_router st)) as Hsub.
  by destruct (Router.add_mount r a (_router st)) as [h table].
Qed.

(** Splits a goal [preserves R m] along the structure of [m]. *)
Ltac frame :=
  repeat (try autounfold with greins;
    match goal with
    | |- PreOrder _ => apply _
    | |- preserves _ (bind _ _) => apply preserves_bind; [..| |intros ?]
    | |- preserves _ (ret _) => apply preserves_ret
    | |- preserves _ (lift _) => apply preserves_lift
    | |- preserves _ (get _) => apply preserves_get
    | |- preserves _ (modify _) =>
        apply preserves_modify;
        [..|intros ?; first [done | unfold grows; simpl; reflexivity]]
    | |- preserves _ (for_each _ _) => apply preserves_for_each; [..|intros ? ?]
    | |- preserves _ (try_except _ _) =>
        apply preserves_try_except; [..| |intros ?]
    | |- preserves (keeps _) (router_add_mount _ _) =>
        apply preserves_router_add_mount; done
    | |- preserves grows (router_add_mount _ _) => apply grows_router_add_mount
    | |- preserves _ (if ?b then _ else _) => destruct b
    | |- preserves _ (match ?x with _ => _ end) => destruct x
    end).

Section MethodFacts.

Context `{External}.

(** What the loader hands to [add_mount] and what the table makes of it. *)
Lemma add_mount_mount_path (r : string) (a : PyVal) (table : gmap string PyVal) :
  Router.add_mount (mount_path r) a table = Router.add_mount r a table.
Proof. unfold Router.add_mount. by rewrite normalize_mount_path. Qed.

Lemma mount_keeps_hooks (ra : string * PyVal) : preserves (keeps _hooks) (mount ra).
Proof. unfold mount, strip_trailing, add_leading. frame. Qed.

Lemma mount_keeps_trace (ra : string * PyVal) : preserves (keeps trace) (mount ra).
Proof. unfold mount, strip_trailing, add_leading. frame. Qed.

Lemma mount_grows (ra : string * PyVal) : preserves grows (mount ra).
Proof. unfold mount, strip_trailing, add_leading. frame. Qed.

Lemma setup_hook_keeps_router (cfg : Scope) (item : string * Hook) :
  preserves (keeps _router) (setup_hook cfg item).
Proof. unfold setup_hook. frame. Qed.

Lemma _setup_hooks_keeps_router (cfg : Scope) :
  preserves (keeps _router) (_setup_hooks cfg).
Proof. unfold _setup_hooks. frame. apply setup_hook_keeps_router. Qed.

Lemma load_failed_keeps_router (cf : string) (e : Exn) :
  preserves (keeps _router) (load_failed cf e).
Proof. unfold load_failed. frame. Qed.

Lemma load_failed_keeps_hooks (cf : string) (e : Exn) :
  preserves (keeps _hooks) (load_failed cf e).
Proof. unfold load_failed. frame. Qed.

Lemma load_failed_keeps_trace (cf : string) (e : Exn) :
  preserves (keeps trace) (load_failed cf e).
Proof. unfold load_failed. frame. Qed.

Lemma load_finished_keeps_router (cf : string) :
  preserves (keeps _router) (load_finished cf).
Proof. unfold load_finished. frame. Qed.

Lemma load_finished_keeps_hooks (cf : string) :
  preserves (keeps _hooks) (load_finished cf).
Proof. unfold load_finished. frame. Qed.

Lemma load_finished_keeps_trace (cf : string) :
  preserves (keeps trace) (load_finished cf).
Proof. unfold load_finished. frame. Qed.

Lemma load_failed_returns (cf : string) (e : Exn) : returns (load_failed cf e).
Proof.
  unfold load_failed. apply returns_bind; [apply returns_get|].
  intros use_reloader. apply returns_bind; [|intros _; apply returns_modify].
  destruct use_reloader; [|apply returns_ret].
  apply returns_bind.
  - apply returns_for_each. intros f. apply returns_modify.
  - intros _. destruct (exn_syntax_filename e);
      [apply returns_modify|apply returns_ret].
Qed.

Lemma load_finished_returns (cf : string) : returns (load_finished cf).
Proof.
  unfold load_finished. apply returns_bind; [apply returns_modify|].
  intros _. apply returns_bind; [apply returns_get|].
  intros table. apply returns_modify.
Qed.

End MethodFacts.

Section LoaderFacts.

Context `{External}.

(** One turn of the mount loop: the table is changed as [add_mount] would
    change it for the key as written; the turn ends in [sys.exit(1)]
    exactly when the handler returned is not the one supplied; until then
    nothing is logged above WARNING. *)
Lemma mount_spec (r : string) (a : PyVal) (st : State) :
  exists st' ws,
    mount (r, a) st =
      (if py_ne (Router.add_mount r a (_router st)).1 a then Exit 1 else Ret tt, st')
    /\ _router st' = (Router.add_mount r a (_router st)).2
    /\ logger st' = logger st ++ ws
    /\ (py_ne (Router.add_mount r a (_router st)).1 a = false ->
        forallb (fun w => negb (is_error w)) ws = true)
    /\ (py_ne (Router.add_mount r a (_router st)).1 a = true ->
        Log ERROR ("Found conflicting routes for '" +:+ mount_path r +:+ "'") ∈ ws).
Proof.
  rewrite <- (add_mount_mount_path r a (_router st)).
  unfold mount, strip_trailing, add_leading, mount_path.
  unfold bind, log, modify, ret, router_add_mount, sys_exit, lift.
  destruct (pystr.endswith pystr.slash r); cbn beta iota;
    [set (r1 := pystr.rstrip pystr.slash r)|set (r1 := r)];
    (destruct (nonempty r1 && negb (pystr.startswith pystr.slash r1));
     cbn beta iota; [set (r2 := String pystr.slash r1)|set (r2 := r1)]);
    simpl; destruct (Router.add_mount r2 a (_router st)) as [h table] eqn:E;
    simpl; destruct (py_ne h a); simpl; eexists; eexists;
    (split; [reflexivity|]); (split; [reflexivity|]); simpl;
    (split;
       [rewrite <- ?app_assoc; first [reflexivity | symmetry; apply app_nil_r]|]);
    (split; [intros Hne; first [discriminate Hne | reflexivity]|]);
    intros Hne; try discriminate Hne; simpl; repeat constructor.
Qed.

(** How [load_file] ends, by how its [try] block ends. *)
Lemma load_file_cases (cf : string) (st : State) :
  match load_body cf st with
  | (Ret _, st1) => load_file cf st = load_finished cf st1
  | (Raise e, st1) =>
      load_file cf st = load_finished cf (load_failed cf e st1).2
  | (Exit code, st1) => load_file cf st = (Exit code, st1)
  end.
Proof.
  unfold load_file, bind, try_except.
  destruct (load_body cf st) as [[[]|e|code] st1]; try done.
  rewrite (returns_unit (load_failed cf e) st1 (load_failed_returns cf e)).
  done.
Qed.

(** [load_file] never lets an [Exception] out. *)
Lemma load_file_no_raise (cf : string) (st : State) (e : Exn) :
  (load_file cf st).1 <> Raise e.
Proof.
  pose proof (load_file_cases cf st) as Hc.
  destruct (load_body cf st) as [[[]|e'|code] st1]; rewrite Hc.
  - by rewrite (returns_unit _ _ (load_finished_returns cf)).
  - by rewrite (returns_unit _ _ (load_finished_returns cf)).
  - done.
Qed.

End LoaderFacts.

(** ** Paths and names *)

Lemma prefix_refl (s : string) : String.prefix s s = true.
Proof.
  induction s as [|a s IH]; [done|]. simpl. by destruct (ascii_dec a a).
Qed.

Lemma prefix_length (k s : string) :
  String.prefix k s = true -> (String.length k <= String.length s)%nat.
Proof.
  revert k. induction s as [|c s IH]; intros k.
  - by intros ->%prefix_nil_r.
  - intros [->|(k' & -> & Hk')]%prefix_cons_r; simpl; [lia|].
    apply le_n_S. by apply IH.
Qed.

(** A request for a mounted path itself resolves to what is mounted there. *)
Lemma resolve_exact (table : gmap string PyVal) (path : string) (h : PyVal) :
  table !! path = Some h -> Router.resolve table path = Some h.
Proof.
  intros Hp. apply resolve_from_some. exists path.
  rewrite append_nil_l. split; [apply prefix_refl|]. split; [done|].
  intros k' Hk' _. by apply prefix_length.
Qed.

Lemma rfind_ge (c : ascii) (s : string) : -1 <= pystr.rfind c s.
Proof.
  induction s as [|a s IH]; simpl; [lia|].
  destruct (0 <=? pystr.rfind c s) eqn:E; [lia|].
  destruct (Ascii.eqb a c); lia.
Qed.

Lemma contains_drop_rfind (c : ascii) (s : string) :
  pystr.contains c (pystr.drop (Z.to_nat (pystr.rfind c s + 1)) s) = false.
Proof.
  induction s as [|a s IH]; [done|]. simpl.
  pose proof (rfind_ge c s) as Hge.
  destruct (0 <=? pystr.rfind c s) eqn:E.
  - apply Z.leb_le in E.
    replace (Z.to_nat (pystr.rfind c s + 1 + 1))
      with (S (Z.to_nat (pystr.rfind c s + 1))) by lia.
    exact IH.
  - apply Z.leb_gt in E.
    assert (pystr.rfind c s = -1) as Hm by lia.
    rewrite Hm in IH. simpl in IH.
    assert (pystr.contains c s = false) as Hs by (by destruct s).
    destruct (Ascii.eqb a c) eqn:Hac; simpl.
    + by destruct s.
    + by rewrite Hac, Hs.
Qed.

Lemma contains_take (c : ascii) (n : nat) (s : string) :
  pystr.contains c s = false -> pystr.contains c (pystr.take n s) = false.
Proof.
  revert n. induction s as [|a s IH]; intros [|n]; simpl; try done.
  intros [Ha Hs]%orb_false_iff. by rewrite Ha, IH.
Qed.

Lemma contains_endswith (c : ascii) (s : string) :
  pystr.contains c s = false -> pystr.endswith c s = false.
Proof.
  induction s as [|a s IH]; [done|]. simpl.
  intros [Ha Hs]%orb_false_iff. destruct s; [done|]. by apply IH.
Qed.

Lemma basename_no_slash (p : string) :
  pystr.contains pystr.slash (os_path.basename p) = false.
Proof. apply contains_drop_rfind. Qed.

Lemma splitext_root_no_slash (p : string) :
  pystr.contains pystr.slash p = false ->
  pystr.contains pystr.slash (os_path.splitext_root p) = false.
Proof.
  intros Hp. unfold os_path.splitext_root.
  destruct (_ <? _); [|done].
  destruct (pystr.all_eq _ _); [done|]. by apply contains_take.
Qed.

(** A unit's name has no '/' in it. *)
Lemma cf_name_no_slash (cf : string) :
  pystr.contains pystr.slash (cf_name cf) = false.
Proof. apply splitext_root_no_slash, basename_no_slash. Qed.

(** '/' followed by a name without '/' is a normalized path. *)
Lemma normalize_slash_name (name : string) :
  pystr.contains pystr.slash name = false ->
  Router.normalize (String pystr.slash name) = String pystr.slash name.
Proof.
  intros Hname. unfold Router.normalize.
  destruct name as [|a name]; [done|].
  rewrite rstrip_id; [done|].
  rewrite endswith_cons by done. by apply contains_endswith.
Qed.

(** ** The claims on the mount table *)

Section MountClaims.

Context `{External}.

(** C4. The path stored for a mount is the normalization of the string the
    unit supplied. One turn of the loader's loop on the key [r] logs its
    warnings and hands [mount_path r] to [add_mount]: the key with its
    trailing '/' stripped and a leading '/' put before what is left. That
    is [Router.normalize r] for every key but those made of '/' only, the
    root "/" among them: for those the loader hands the empty string, and
    it is the table's own normalization that makes it "/" again. So the
    handler ends up under [Router.normalize r] for every key, and the root
    stays "/". A normalized path starts with '/', has no trailing '/'
    unless it is the root, and differs from the supplied string only by the
    enforced leading '/' and the stripped trailing '/'. [add_mount 'foo/']
    is [add_mount '/foo'], the loader's turns on 'foo/' and on '/foo' leave
    the same table, and [resolve '/foo'] then gives the handler mounted
    there, which is the supplied one when '/foo' was free. *)
Theorem C4_stored_path_is_normalized (r : string) (a : PyVal) (st : State) :
  mount (r, a) st
  = (do existing <- router_add_mount (mount_path r) a ;;
     if py_ne existing a then
       run log ERROR ("Found conflicting routes for '" +:+ mount_path r +:+ "'") ;;
       sys_exit 1
     else ret tt) (set_logger (fun l => l ++ mount_warnings r) st)
  /\ mount_path r
     = (if pystr.all_eq pystr.slash r then EmptyString else Router.normalize r)
  /\ _router (mount (r, a) st).2
     = (Router.add_mount (mount_path r) a (_router st)).2
  /\ _router (mount (r, a) st).2 = (Router.add_mount r a (_router st)).2
  /\ _router (mount (r, a) st).2 !! Router.normalize r
     = Some (default a (_router st !! Router.normalize r))
  /\ Router.normalize (mount_path r) = Router.normalize r
  /\ pystr.startswith pystr.slash (Router.normalize r) = true
  /\ (Router.normalize r = "/" \/
      pystr.endswith pystr.slash (Router.normalize r) = false)
  /\ (exists n,
        (if pystr.startswith pystr.slash r then r else String pystr.slash r)
        = Router.normalize r +:+ pystr.repeat pystr.slash n)
  /\ (mount_path "/" = EmptyString /\ Router.normalize EmptyString = "/"
      /\ Router.normalize "/" = "/")
  /\ Router.add_mount "foo/" a (_router st) = Router.add_mount "/foo" a (_router st)
  /\ _router (mount ("foo/", a) st).2 = _router (mount ("/foo", a) st).2
  /\ Router.resolve (_router (mount ("foo/", a) st).2) "/foo"
     = Some (default a (_router st !! "/foo"))
  /\ Router.resolve (Router.add_mount "foo/" a ∅).2 "/foo" = Some a.
Proof.
  assert (forall r', _router (mount (r', a) st).2
                     = (Router.add_mount r' a (_router st)).2) as Hstored.
  { intros r'. destruct (mount_spec r' a st) as (st' & ws & Hm & Hr & _).
    by rewrite Hm. }
  split; [apply mount_unfold|].
  split.
  { rewrite mount_path_rstrip. cbv zeta. unfold Router.normalize.
    pose proof (rstrip_empty pystr.slash r) as Hall.
    destruct (pystr.rstrip pystr.slash r) as [|b t] eqn:E.
    - by rewrite (proj1 Hall eq_refl).
    - destruct (pystr.all_eq pystr.slash r); [by destruct Hall as [_ Hall]; discriminate Hall|].
      cbn [nonempty andb]. by destruct (pystr.startswith pystr.slash (String b t)). }
  split; [by rewrite Hstored, add_mount_mount_path|].
  split; [apply Hstored|].
  split. { by rewrite Hstored, add_mount_lookup, add_mount_fst. }
  split; [apply normalize_mount_path|].
  split; [apply normalize_startswith|].
  split; [apply normalize_no_trailing|].
  split; [apply normalize_repeat|].
  split; [done|]. split; [done|].
  split; [by rewrite !Hstored|].
  split.
  - apply resolve_exact. rewrite Hstored.
    change "/foo" with (Router.normalize "foo/").
    by rewrite add_mount_lookup, add_mount_fst.
  - apply resolve_exact.
    change "/foo" with (Router.normalize "foo/").
    by rewrite add_mount_lookup.
Qed.

(** C5. [resolve] returns the handler mounted at the longest mounted prefix
    of the request path, and NotFound exactly when no mounted path is a
    prefix of it; with two mounted prefixes of a request, the answer comes
    from a mounted prefix at least as long as both. *)
Theorem C5_resolve_longest_prefix (table : gmap string PyVal) (request_path : string) :
  (forall h, Router.resolve table request_path = Some h <->
             Router.longest_match table request_path h)
  /\ (Router.resolve table request_path = None <->
      Router.no_match table request_path)
  /\ (forall p1 p2 h1 h2, p1 <> p2 ->
        table !! p1 = Some h1 -> table !! p2 = Some h2 ->
        String.prefix p1 request_path = true ->
        String.prefix p2 request_path = true ->
        exists k h, Router.resolve table request_path = Some h
          /\ table !! k = Some h /\ String.prefix k request_path = true
          /\ (String.length p1 <= String.length k)%nat
          /\ (String.length p2 <= String.length k)%nat).
Proof.
  split; [|split].
  - intros h. unfold Router.resolve, Router.longest_match.
    rewrite resolve_from_some. by setoid_rewrite append_nil_l.
  - unfold Router.resolve, Router.no_match.
    rewrite resolve_from_none. by setoid_rewrite append_nil_l.
  - intros p1 p2 h1 h2 _ H1 H2 Hp1 Hp2.
    destruct (Router.resolve table request_path) as [h|] eqn:E.
    + pose proof E as E'. unfold Router.resolve in E'.
      apply resolve_from_some in E' as (k & Hk & Hl & Hmax).
      setoid_rewrite append_nil_l in Hmax. rewrite append_nil_l in Hl.
      exists k, h. repeat split; try done.
      * apply Hmax; [done|]. by rewrite H1.
      * apply Hmax; [done|]. by rewrite H2.
    + unfold Router.resolve in E. rewrite resolve_from_none in E.
      specialize (E p1 Hp1). rewrite append_nil_l in E. congruence.
Qed.

Lemma errors_app_quiet (l ws : list LogRecord) :
  forallb (fun w => negb (is_error w)) ws = true -> errors (l ++ ws) = errors l.
Proof.
  intros Hws. unfold errors. rewrite List.filter_app.
  assert (List.filter is_error ws = []) as ->; [|by rewrite app_nil_r].
  induction ws as [|w ws IH]; [done|]. simpl in *.
  apply andb_true_iff in Hws as [Hw Hws].
  destruct (is_error w); [done|]. by apply IH.
Qed.

(** C10. Mounting again the handler a path already has is no conflict:
    [add_mount] returns that handler and leaves the table as it is, the
    loader's turn returns normally, changes neither table nor hooks and logs
    no error; a turn ends in [sys.exit(1)] exactly when the handler returned
    differs from the one supplied. *)
Theorem C10_remount_same_handler (p : string) (handler : PyVal) (st : State) :
  (_router st !! Router.normalize p = Some handler ->
     Router.add_mount p handler (_router st) = (handler, _router st)
     /\ exists st',
         mount (p, handler) st = (Ret tt, st')
         /\ _router st' = _router st /\ _hooks st' = _hooks st
         /\ errors (logger st') = errors (logger st))
  /\ ((mount (p, handler) st).1 = Exit 1 <->
      (Router.add_mount p handler (_router st)).1 <> handler).
Proof.
  destruct (mount_spec p handler st) as (st' & ws & Hm & Hr & Hl & Hq & _).
  split.
  - intros Hp.
    pose proof (add_mount_present p handler handler (_router st) Hp) as Ha.
    rewrite Ha in Hm, Hr, Hq. cbn [fst snd] in Hm, Hr, Hq. split; [done|].
    assert (py_ne handler handler = false) as Hne by by apply py_ne_false.
    rewrite Hne in Hm. exists st'. split; [done|]. split; [done|].
    split.
    + pose proof (mount_keeps_hooks (p, handler) st) as Hk.
      rewrite Hm in Hk. exact Hk.
    + rewrite Hl. apply errors_app_quiet. by apply Hq.
  - rewrite Hm. simpl. rewrite <- py_ne_true.
    by destruct (py_ne _ _).
Qed.

End MountClaims.

(** ** The claims on the hook registry *)

Section HookClaims.

Context `{External}.

Lemma _do_hook_unfold (name : string) (argtuple : list PyVal) (hook : Hook) (st : State) :
  _hooks st !! name = Some hook ->
  _do_hook name argtuple st = for_each (handlers hook) (invoke name argtuple) st.
Proof. intros Hh. unfold _do_hook, bind, get. by rewrite Hh. Qed.

Lemma invoke_keeps_hooks (name : string) (argtuple : list PyVal) (handler : PyVal) :
  preserves (keeps _hooks) (invoke name argtuple handler).
Proof. unfold invoke. frame. Qed.

Lemma invoke_keeps_logger (name : string) (argtuple : list PyVal) (handler : PyVal) :
  preserves (keeps logger) (invoke name argtuple handler).
Proof. unfold invoke. frame. Qed.

(** While handlers return, the fan-out goes on, in the order of the list. *)
Lemma fan_out_all (name : string) (argtuple : list PyVal) (hs : list PyVal) (st : State) :
  (forall h, h ∈ hs -> call h argtuple = Ret tt) ->
  exists st',
    for_each hs (invoke name argtuple) st = (Ret tt, st')
    /\ trace st' = trace st ++ map (fun h => Called name h argtuple) hs.
Proof.
  revert st. induction hs as [|h hs IH]; intros st Hall.
  - exists st. by rewrite app_nil_r.
  - destruct (IH (set_trace (fun t => t ++ [Called name h argtuple]) st))
      as (st' & Hrun & Htr).
    { intros x Hx. apply Hall. by right. }
    exists st'. split.
    + cbn [for_each]. unfold bind at 1. unfold invoke at 1.
      unfold bind, emit, modify, lift. rewrite (Hall h) by left. exact Hrun.
    + rewrite Htr. simpl. by rewrite <- app_assoc.
Qed.

(** The first handler that does not return ends the fan-out: the handlers
    after it are not called and its exception is the result. *)
Lemma fan_out_stops (name : string) (argtuple : list PyVal)
    (pre post : list PyVal) (h : PyVal) (e : Exn) (st : State) :
  (forall x, x ∈ pre -> call x argtuple = Ret tt) ->
  call h argtuple = Raise e ->
  exists st',
    for_each (pre ++ h :: post) (invoke name argtuple) st = (Raise e, st')
    /\ trace st' = trace st ++ map (fun h => Called name h argtuple) (pre ++ [h]).
Proof.
  revert st. induction pre as [|x pre IH]; intros st Hpre Hh.
  - eexists. split.
    + cbn [app for_each]. unfold bind at 1. unfold invoke at 1.
      unfold bind, emit, modify, lift. rewrite Hh. reflexivity.
    + done.
  - destruct (IH (set_trace (fun t => t ++ [Called name x argtuple]) st))
      as (st' & Hrun & Htr); [|done|].
    { intros y Hy. apply Hpre. by right. }
    exists st'. split.
    + cbn [app for_each]. unfold bind at 1. unfold invoke at 1.
      unfold bind, emit, modify, lift. rewrite (Hpre x) by left. exact Hrun.
    + rewrite Htr. simpl. by rewrite <- app_assoc.
Qed.

(** C2, as the code has it. Firing an event calls its handlers in
    registration order with the arguments given, leaves the registry as it
    is and logs nothing; when every handler returns, all of them are called
    and [fire] returns; when a handler raises, the handlers registered after
    it are not called and the exception reaches the caller of [fire]. *)
Theorem C2_fire_stops_at_first_failure
    (name : string) (hook : Hook) (argtuple : list PyVal) (st : State) :
  _hooks st !! name = Some hook ->
  _hooks (_do_hook name argtuple st).2 = _hooks st
  /\ logger (_do_hook name argtuple st).2 = logger st
  /\ ((forall h, h ∈ handlers hook -> call h argtuple = Ret tt) ->
      (_do_hook name argtuple st).1 = Ret tt
      /\ trace (_do_hook name argtuple st).2
         = trace st ++ map (fun h => Called name h argtuple) (handlers hook))
  /\ (forall pre h post e,
        handlers hook = pre ++ h :: post ->
        (forall x, x ∈ pre -> call x argtuple = Ret tt) ->
        call h argtuple = Raise e ->
        (_do_hook name argtuple st).1 = Raise e
        /\ trace (_do_hook name argtuple st).2
           = trace st ++ map (fun h => Called name h argtuple) (pre ++ [h])).
Proof.
  intros Hh. rewrite (_do_hook_unfold name argtuple hook st Hh).
  split; [|split; [|split]].
  - apply (preserves_for_each (keeps _hooks)). intros h _.
    apply invoke_keeps_hooks.
  - apply (preserves_for_each (keeps logger)). intros h _.
    apply invoke_keeps_logger.
  - intros Hall.
    destruct (fan_out_all name argtuple (handlers hook) st Hall) as (st' & -> & Htr).
    done.
  - intros pre h post e -> Hpre He.
    destruct (fan_out_stops name argtuple pre post h e st Hpre He) as (st' & -> & Htr).
    done.
Qed.

(** One turn of [_setup_hooks] on a truthy binding: the validator runs
    first; the handler is appended only when it passes. *)
Lemma setup_hook_truthy (cfg : Scope) (name : string) (hook : Hook) (st : State) :
  truthy (scope_get cfg name) = true ->
  exists st1,
    trace st1 = trace st ++ [Validated name (scope_get cfg name)]
    /\ _hooks st1 = _hooks st /\ _router st1 = _router st
    /\ logger st1 = logger st
    /\ match validator hook (scope_get cfg name) with
       | Ret _ =>
           exists st',
             setup_hook cfg (name, hook) st = (Ret tt, st')
             /\ _hooks st' = alter (appended (scope_get cfg name)) name (_hooks st)
             /\ trace st' = trace st1 /\ _router st' = _router st
       | Raise e => setup_hook cfg (name, hook) st = (Raise e, st1)
       | Exit code => setup_hook cfg (name, hook) st = (Exit code, st1)
       end.
Proof.
  intros Ht. unfold setup_hook. rewrite Ht.
  unfold bind, emit, modify, lift, hook_append.
  exists (set_trace (fun t => t ++ [Validated name (scope_get cfg name)]) st).
  repeat (split; [reflexivity|]).
  destruct (validator hook (scope_get cfg name)) as [[]|e|code]; [|done..].
  eexists. split; [reflexivity|]. done.
Qed.

(** One turn of [_setup_hooks] on a falsy binding does nothing at all. *)
Lemma setup_hook_falsy (cfg : Scope) (name : string) (hook : Hook) (st : State) :
  truthy (scope_get cfg name) = false ->
  setup_hook cfg (name, hook) st = (Ret tt, st).
Proof. intros Ht. unfold setup_hook. by rewrite Ht. Qed.

Global Instance untouched_preorder (name : string) : PreOrder (untouched name).
Proof.
  split.
  - by intros st.
  - intros st1 st2 st3 [Hh12 Ht12] [Hh23 Ht23]. split; [congruence|].
    intros v Hv. by apply Ht12, Ht23.
Qed.

Lemma setup_hook_untouched (cfg : Scope) (name : string) (item : string * Hook) :
  truthy (scope_get cfg name) = false ->
  preserves (untouched name) (setup_hook cfg item).
Proof.
  intros Hf st. destruct item as [n hook].
  destruct (decide (n = name)) as [->|Hne].
  - by rewrite setup_hook_falsy.
  - unfold setup_hook.
    destruct (truthy (scope_get cfg n)); [|done].
    unfold bind, emit, modify, lift, hook_append.
    destruct (validator hook (scope_get cfg n)) as [[]|e|code];
      unfold set_hooks, set_trace; simpl;
      (split; simpl;
       [by rewrite ?lookup_alter_ne
       |intros v [Hv|Hv%list_elem_of_singleton]%elem_of_app; [done|congruence]]).
Qed.

Lemma _setup_hooks_untouched (cfg : Scope) (name : string) :
  truthy (scope_get cfg name) = false ->
  preserves (untouched name) (_setup_hooks cfg).
Proof.
  intros Hf. unfold _setup_hooks.
  apply preserves_bind; [apply _|by intros st|].
  intros items. apply preserves_for_each; [apply _|].
  intros item _. by apply setup_hook_untouched.
Qed.

(** C9. A hook name bound to a falsy value is skipped in silence: the turn
    of [_setup_hooks] on it returns and changes nothing (no validator run,
    no handler appended, nothing logged), and after the whole of
    [_setup_hooks] the entry of that name is as before and the trace has no
    new run of its validator. *)
Theorem C9_falsy_binding_skipped (cfg : Scope) (name : string) (hook : Hook) (st : State) :
  truthy (scope_get cfg name) = false ->
  setup_hook cfg (name, hook) st = (Ret tt, st)
  /\ _hooks (_setup_hooks cfg st).2 !! name = _hooks st !! name
  /\ forall v, Validated name v ∈ trace (_setup_hooks cfg st).2 ->
               Validated name v ∈ trace st.
Proof.
  intros Hf. split; [by apply setup_hook_falsy|].
  apply (_setup_hooks_untouched cfg name Hf st).
Qed.

Lemma setup_hook_loop_accepts (cfg : Scope) (items : list (string * Hook))
    (st : State) :
  NoDup items.*1 ->
  (forall name hook, (name, hook) ∈ items ->
     truthy (scope_get cfg name) = true ->
     validator hook (scope_get cfg name) = Ret tt) ->
  (for_each items (setup_hook cfg) st).1 = Ret tt
  /\ forall name,
       _hooks (for_each items (setup_hook cfg) st).2 !! name
       = (if decide (name ∈ items.*1) then contributed cfg name else id)
           <$> _hooks st !! name.
Proof.
  revert st. induction items as [|[n hk] items IH]; intros st Hnd Hok.
  - split; [done|]. intros name. simpl. by rewrite option_fmap_id.
  - rewrite fmap_cons in Hnd. apply NoDup_cons in Hnd as [Hn Hnd].
    cbn [fst] in Hn. cbn [for_each]. unfold bind.
    assert (exists st1, setup_hook cfg (n, hk) st = (Ret tt, st1)
              /\ _hooks st1 !! n = contributed cfg n <$> _hooks st !! n
              /\ forall name, name <> n -> _hooks st1 !! name = _hooks st !! name)
      as (st1 & -> & Hn1 & Hother).
    { unfold contributed. destruct (truthy (scope_get cfg n)) eqn:Ht.
      - destruct (setup_hook_truthy cfg n hk st Ht) as (st0 & _ & _ & _ & _ & Hv).
        rewrite (Hok n hk (list_elem_of_here _ _) Ht) in Hv.
        destruct Hv as (st1 & Hs & Hh & _). exists st1. split; [done|].
        rewrite Hh. split; [by rewrite lookup_alter_eq|].
        intros name Hne. by rewrite lookup_alter_ne.
      - exists st. rewrite (setup_hook_falsy cfg n hk st Ht).
        split; [done|]. split; [|done]. by destruct (_hooks st !! n). }
    destruct (IH st1 Hnd) as [Hret Hl].
    { intros name hook Hin. apply Hok. by right. }
    split; [done|]. intros name. rewrite Hl.
    destruct (decide (name = n)) as [->|Hne].
    + rewrite decide_False by done. rewrite decide_True by (by left).
      rewrite Hn1. by destruct (_hooks st !! n).
    + rewrite (Hother name Hne).
      destruct (decide (name ∈ items.*1)) as [Hin|Hout].
      * rewrite decide_True by (by right). done.
      * rewrite decide_False; [done|].
        rewrite fmap_cons. by intros [?|?]%elem_of_cons.
Qed.

(** The entries [_setup_hooks] works on are those of the registry, each
    name once. *)
Lemma registry_items (st : State) (name : string) :
  NoDup (map_to_list (_hooks st)).*1
  /\ (forall hook, (name, hook) ∈ map_to_list (_hooks st) <->
       _hooks st !! name = Some hook)
  /\ (name ∉ (map_to_list (_hooks st)).*1 -> _hooks st !! name = None).
Proof.
  split; [apply NoDup_fst_map_to_list|]. split.
  - intros hook. apply elem_of_map_to_list.
  - intros Hout. destruct (_hooks st !! name) as [hook|] eqn:E; [|done].
    exfalso. apply Hout. apply list_elem_of_fmap. exists (name, hook).
    split; [done|]. by apply elem_of_map_to_list.
Qed.





End HookClaims.

(** ** The claims on the loader *)

Section LoaderClaims.

Context `{External}.

Lemma load_body_exec_raise (cf : string) (e : Exn) (st : State) :
  execfile cf = Raise e -> load_body cf st = (Raise e, entered cf st).
Proof. intros He. unfold load_body, bind, log, modify, lift. by rewrite He. Qed.

Lemma load_body_import_raise (cf : string) (cfg : Scope) (e : Exn) (st : State) :
  execfile cf = Ret cfg -> mounts cfg = [] -> import_app (cf_name cf) = Raise e ->
  load_body cf st = (Raise e, entered cf st).
Proof.
  intros He Hm Hi. unfold load_body, bind, log, modify, lift. rewrite He.
  unfold default_mounts. rewrite Hm. unfold bind, lift.
  unfold cf_name in Hi. by rewrite Hi.
Qed.

Lemma load_body_declared (cf : string) (cfg : Scope) (st : State) :
  execfile cf = Ret cfg -> mounts cfg <> [] ->
  load_body cf st
  = (run for_each (mounts cfg) mount ;; _setup_hooks cfg) (entered cf st).
Proof.
  intros He Hm. unfold load_body, bind at 1 2 3, log, modify, lift. rewrite He.
  unfold default_mounts. by destruct (mounts cfg).
Qed.

Lemma load_body_default (cf : string) (cfg : Scope) (a : PyVal) (st : State) :
  execfile cf = Ret cfg -> mounts cfg = [] -> import_app (cf_name cf) = Ret a ->
  load_body cf st
  = (run for_each [(String pystr.slash (cf_name cf), a)] mount ;; _setup_hooks cfg)
      (entered cf st).
Proof.
  intros He Hm Hi. unfold load_body, bind at 1 2 3, log, modify, lift. rewrite He.
  unfold default_mounts. rewrite Hm. unfold bind at 1, lift.
  unfold cf_name in Hi. by rewrite Hi.
Qed.

(** After the [try] block, [load_file] touches neither table nor hooks. *)
Lemma load_file_after_body (cf : string) (st : State) :
  _router (load_file cf st).2 = _router (load_body cf st).2
  /\ _hooks (load_file cf st).2 = _hooks (load_body cf st).2
  /\ trace (load_file cf st).2 = trace (load_body cf st).2.
Proof.
  pose proof (load_file_cases cf st) as Hc.
  destruct (load_body cf st) as [[[]|e|code] st1]; rewrite Hc; cbn [snd].
  - split; [apply load_finished_keeps_router|].
    split; [apply load_finished_keeps_hooks|apply load_finished_keeps_trace].
  - split; [|split].
    + etrans; [apply load_finished_keeps_router|apply load_failed_keeps_router].
    + etrans; [apply load_finished_keeps_hooks|apply load_failed_keeps_hooks].
    + etrans; [apply load_finished_keeps_trace|apply load_failed_keeps_trace].
  - done.
Qed.

(** A [try] block that raises: [load_file] still returns, having logged
    the exception under the unit's name. *)
Lemma load_file_caught (cf : string) (e : Exn) (st st1 : State) :
  load_body cf st = (Raise e, st1) ->
  (load_file cf st).1 = Ret tt
  /\ LogException ("Exception reading config for " +:+ cf_name cf +:+ ":") e
     ∈ logger (load_file cf st).2.
Proof.
  intros Hb. pose proof (load_file_cases cf st) as Hc. rewrite Hb in Hc.
  rewrite Hc. rewrite (returns_unit _ _ (load_finished_returns cf)).
  split; [done|]. cbn [snd].
  unfold load_finished, load_failed, bind, get, log, log_exception, modify.
  destruct (_use_reloader st1); simpl.
  - set (files := for_each (exn_tb_files e) add_extra_file st1).
    pose proof (returns_unit (for_each (exn_tb_files e) add_extra_file) st1) as Hf.
    fold files in Hf. rewrite Hf.
    2:{ apply returns_for_each. intros f. apply returns_modify. }
    destruct (exn_syntax_filename e); simpl; set_solver.
  - set_solver.
Qed.

(** The table after a mount loop and [_setup_hooks] is the table after the
    mount loop. *)
Lemma mounts_then_hooks_router (declared : list (string * PyVal)) (cfg : Scope)
    (st : State) :
  _router ((run for_each declared mount ;; _setup_hooks cfg) st).2
  = _router (for_each declared mount st).2.
Proof.
  unfold bind. destruct (for_each declared mount st) as [[[]|e|code] st1]; [|done..].
  apply _setup_hooks_keeps_router.
Qed.

(** C6. A unit that declared no mount is mounted by name: the mounts the
    loader goes on with are the single pair of '/' + unit name and the
    handler [import_app] gave for that name; that path is its own
    normalization; the table [load_file] leaves is the one [add_mount]
    gives for that pair, which, the path being free, is the old table with
    that one new entry. *)
Theorem C6_default_mount_by_name (cf : string) (cfg : Scope) (a : PyVal) (st : State) :
  execfile cf = Ret cfg -> mounts cfg = [] -> import_app (cf_name cf) = Ret a ->
  default_mounts cf cfg st = (Ret [(String pystr.slash (cf_name cf), a)], st)
  /\ Router.normalize (mount_path (String pystr.slash (cf_name cf)))
     = String pystr.slash (cf_name cf)
  /\ _router (load_file cf st).2
     = (Router.add_mount (String pystr.slash (cf_name cf)) a (_router st)).2
  /\ (_router st !! String pystr.slash (cf_name cf) = None ->
      _router (load_file cf st).2
      = <[String pystr.slash (cf_name cf) := a]> (_router st)).
Proof.
  intros He Hm Hi.
  assert (Router.normalize (String pystr.slash (cf_name cf))
          = String pystr.slash (cf_name cf)) as Hnorm
    by apply normalize_slash_name, cf_name_no_slash.
  assert (_router (load_file cf st).2
          = (Router.add_mount (String pystr.slash (cf_name cf)) a (_router st)).2)
    as Hrouter.
  { destruct (load_file_after_body cf st) as (-> & _).
    rewrite (load_body_default cf cfg a st He Hm Hi), mounts_then_hooks_router.
    cbn [for_each]. unfold bind.
    destruct (mount_spec (String pystr.slash (cf_name cf)) a (entered cf st))
      as (st1 & ws & -> & Hr & _).
    by destruct (py_ne _ _). }
  split.
  { unfold default_mounts. rewrite Hm. unfold bind, lift.
    unfold cf_name in Hi. by rewrite Hi. }
  split; [by rewrite normalize_mount_path|].
  split; [done|].
  intros Hfree. rewrite <- Hnorm in Hfree.
  rewrite Hrouter. by rewrite (add_mount_absent _ a (_router st) Hfree), Hnorm.
Qed.

End LoaderClaims.

(** ** The threads of [load] *)

#[export] Hint Unfold default_mounts load_start load_dispatch load_end : greins.

Section BootFacts.

Context `{External}.

Lemma load_start_grows (cf : string) : preserves grows (load_start cf).
Proof. frame. Qed.

Lemma load_start_keeps_router (cf : string) : preserves (keeps _router) (load_start cf).
Proof. frame. Qed.

Lemma load_start_keeps_hooks (cf : string) : preserves (keeps _hooks) (load_start cf).
Proof. frame. Qed.

Lemma setup_hooks_returns : returns setup_hooks.
Proof.
  unfold setup_hooks. apply returns_for_each. intros [name obj].
  destruct (String.eqb _ _); [|apply returns_ret].
  apply returns_bind; [apply returns_modify|]. intros _. apply returns_modify.
Qed.

Lemma load_begin_returns : returns load_begin.
Proof.
  unfold load_begin. apply returns_bind; [apply returns_modify|]. intros _.
  apply returns_bind; [apply setup_hooks_returns|]. intros _.
  apply returns_bind; [apply returns_get|].
  intros []; [apply returns_modify|apply returns_ret].
Qed.

Lemma load_dispatch_returns (cf : string) : returns (load_dispatch cf).
Proof.
  unfold load_dispatch. apply returns_bind; [apply returns_get|].
  intros []; [apply returns_modify|apply returns_ret].
Qed.

Lemma load_end_returns : returns load_end.
Proof. apply returns_modify. Qed.

Lemma load_dispatch_keeps_router (cf : string) :
  preserves (keeps _router) (load_dispatch cf).
Proof. frame. Qed.

Lemma load_dispatch_keeps_hooks (cf : string) :
  preserves (keeps _hooks) (load_dispatch cf).
Proof. frame. Qed.

Lemma load_end_keeps_router : preserves (keeps _router) load_end.
Proof. frame. Qed.

Lemma load_end_keeps_hooks : preserves (keeps _hooks) load_end.
Proof. frame. Qed.

Lemma setup_hooks_keeps_router : preserves (keeps _router) setup_hooks.
Proof. unfold setup_hooks. frame. Qed.

Lemma setup_hooks_keeps_app_dir : preserves (keeps app_dir) setup_hooks.
Proof. unfold setup_hooks. frame. Qed.

Lemma load_begin_router (st : State) : _router (load_begin st).2 = ∅.
Proof.
  unfold load_begin, bind at 1. unfold modify at 1.
  set (st0 := set_router (fun _ => ∅) st).
  assert (preserves (keeps _router)
            (run setup_hooks ;;
             do use_reloader <- get _use_reloader ;;
             if use_reloader then modify (set_reloader (fun _ => [])) else ret tt))
    as Hk.
  { apply preserves_bind; [apply _|apply setup_hooks_keeps_router|].
    intros _. frame. }
  apply (Hk st0).
Qed.

Lemma load_begin_app_dir (st : State) : app_dir (load_begin st).2 = app_dir st.
Proof.
  assert (preserves (keeps app_dir) load_begin) as Hk; [|apply Hk].
  unfold load_begin.
  apply preserves_bind; [apply _|frame|]. intros _.
  apply preserves_bind; [apply _|apply setup_hooks_keeps_app_dir|]. intros _.
  frame.
Qed.

(** What one step of a thread can do to the shared objects: the table only
    gains entries, and changes only in the mount loop; the hooks change
    only inside [_setup_hooks]. *)
Lemma task_step_shared (tid : nat) (t t' : Task) (lock lock' : option nat)
    (st st' : State) :
  task_step tid t lock st = Some (t', lock', st') ->
  grows st st'
  /\ (in_hooks t = false -> _hooks st' = _hooks st)
  /\ (in_hooks t = true -> _router st' = _router st).
Proof.
  destruct t as [cf|cf cfg [|ra todo]|cf cfg|cf cfg [|item todo]|cf e|cf| | |];
    cbn [task_step in_hooks]; intros Hs.
  - destruct (load_start cf st) as [r st1] eqn:E. simplify_eq.
    pose proof (load_start_grows cf st) as Hg.
    pose proof (load_start_keeps_hooks cf st) as Hk.
    rewrite E in Hg, Hk. by repeat split.
  - simplify_eq. by repeat split.
  - destruct (mount ra st) as [r st1] eqn:E. simplify_eq.
    pose proof (mount_grows ra st) as Hg.
    pose proof (mount_keeps_hooks ra st) as Hk.
    rewrite E in Hg, Hk. by repeat split.
  - unfold lock_acquire in Hs. destruct lock; simplify_eq. by repeat split.
  - simplify_eq. by repeat split.
  - destruct (setup_hook cfg item st) as [r st1] eqn:E.
    pose proof (setup_hook_keeps_router cfg item st) as Hk. rewrite E in Hk.
    assert (st' = st1) as -> by (destruct r as [[]| |]; by simplify_eq).
    unfold keeps in Hk. cbn [snd] in Hk. unfold grows. rewrite Hk.
    by repeat split.
  - destruct (load_failed cf e st) as [r st1] eqn:E. simplify_eq.
    pose proof (load_failed_keeps_router cf e st) as Hr.
    pose proof (load_failed_keeps_hooks cf e st) as Hk.
    rewrite E in Hr, Hk. unfold keeps in *. cbn [snd] in *.
    unfold grows. rewrite Hr. by repeat split.
  - destruct (load_finished cf st) as [r st1] eqn:E. simplify_eq.
    pose proof (load_finished_keeps_router cf st) as Hr.
    pose proof (load_finished_keeps_hooks cf st) as Hk.
    rewrite E in Hr, Hk. unfold keeps in *. cbn [snd] in *.
    unfold grows. rewrite Hr. by repeat split.
  - done.
  - done.
  - done.
Qed.

(** What one step of the main thread does once [load] is in its loop: it
    leaves table and hooks alone, keeps the threads there are and does not
    look at how far they are. *)
Lemma main_step_loop (m m' : Machine) :
  main_step m = Some m' -> main m <> MBegin ->
  _router (shared m') = _router (shared m)
  /\ _hooks (shared m') = _hooks (shared m)
  /\ _hooks_lock m' = _hooks_lock m
  /\ main m' <> MBegin
  /\ threads m `prefix_of` threads m'
  /\ Forall (fun t => in_hooks t = false) (drop (length (threads m)) (threads m')).
Proof.
  unfold main_step. destruct (main m) as [|[|cf todo]| |] eqn:Em; try done.
  - intros Hs _. destruct (load_end (shared m)) as [r st1] eqn:E. simplify_eq.
    pose proof (load_end_keeps_router (shared m)) as Hr.
    pose proof (load_end_keeps_hooks (shared m)) as Hk.
    rewrite E in Hr, Hk. cbn [shared _hooks_lock main threads].
    repeat split; try done.
    + by destruct r.
    + by rewrite drop_all.
  - intros Hs _. destruct (load_dispatch cf (shared m)) as [r st1] eqn:E.
    pose proof (load_dispatch_keeps_router cf (shared m)) as Hr.
    pose proof (load_dispatch_keeps_hooks cf (shared m)) as Hk.
    rewrite E in Hr, Hk.
    destruct r as [[]|e|code]; simplify_eq; cbn [shared _hooks_lock main threads];
      repeat split; try done; rewrite ?drop_all, ?drop_app_length; try done.
    + by apply prefix_app_r.
    + by repeat constructor.
Qed.

End BootFacts.

(** ** Invariants of the process *)

Section Invariants.

Context `{External}.






(** Once [load] is in its loop the table only gains entries. *)
Lemma step_grows (m m' : Machine) :
  step m m' -> main m <> MBegin ->
  _router (shared m) ⊆ _router (shared m') /\ main m' <> MBegin.
Proof.
  intros [m1 m2 Hmain|m1 tid t t' lock' st' Ht Hs] Hb.
  - destruct (main_step_loop m1 m2 Hmain Hb) as (-> & _ & _ & Hb' & _). done.
  - destruct (task_step_shared tid t t' _ lock' _ st' Hs) as (Hg & _). done.
Qed.

Lemma steps_grow (m m' : Machine) :
  rtc step m m' -> main m <> MBegin ->
  _router (shared m) ⊆ _router (shared m') /\ main m' <> MBegin.
Proof.
  induction 1 as [m|m1 m2 m3 Hs _ IH]; intros Hb; [done|].
  destruct (step_grows m1 m2 Hs Hb) as [Hg Hb'].
  destruct (IH Hb') as [Hg' Hb'']. split; [by etrans|done].
Qed.

(** [load] does not fail: the main thread never ends in an exception,
    whatever the threads do. *)
Lemma main_step_no_crash (m m' : Machine) :
  main_step m = Some m' -> main m' <> MCrashed.
Proof.
  unfold main_step. destruct (main m) as [|[|cf todo]| |]; try done.
  - rewrite (returns_unit _ _ load_begin_returns). by intros [= <-].
  - rewrite (returns_unit _ _ load_end_returns). by intros [= <-].
  - rewrite (returns_unit _ _ (load_dispatch_returns cf)). by intros [= <-].
Qed.

Lemma no_crash_reachable (dir : string) (reloader : bool) (m : Machine) :
  rtc step (init dir reloader) m -> main m <> MCrashed.
Proof.
  revert m. apply (rtc_ind_r (R := step) (fun m => main m <> MCrashed)); [done|].
  intros m1 m2 _ Hs IH.
  destruct Hs as [m3 m4 Hmain|m3 tid t t' lock' st' Ht Hs].
  - by apply (main_step_no_crash m3).
  - done.
Qed.

(** The main thread moves whenever [load] has not returned: it waits for
    no thread. *)
Lemma main_step_enabled (m : Machine) :
  main m <> MReturned -> main m <> MCrashed -> is_Some (main_step m).
Proof.
  unfold main_step. destruct (main m) as [|[|cf todo]| |]; intros Hr Hc.
  - destruct (load_begin (shared m)) as [r st1]. eexists. reflexivity.
  - destruct (load_end (shared m)) as [r st1]. eexists. reflexivity.
  - destruct (load_dispatch cf (shared m)) as [r st1]. eexists. reflexivity.
  - done.
  - done.
Qed.

End Invariants.

(** ** The claims on the boot path *)

Section BootClaims.

Context `{External}.

(** A schedule that runs is a run of the process. *)
Lemma sched_step_step (who : option nat) (m m' : Machine) :
  sched_step who m = Some m' -> step m m'.
Proof.
  destruct who as [tid|]; cbn [sched_step]; [|apply step_main].
  destruct (threads m !! tid) as [t|] eqn:Et; [|done].
  destruct (task_step tid t (_hooks_lock m) (shared m)) as [[[t' lock'] st']|] eqn:Es;
    [|done].
  intros [= <-]. by eapply step_thread.
Qed.

Lemma run_schedule_steps (sched : list (option nat)) (m m' : Machine) :
  run_schedule sched m = Some m' -> rtc step m m'.
Proof.
  revert m. induction sched as [|who sched IH]; intros m; cbn [run_schedule].
  - by intros [= <-].
  - destruct (sched_step who m) as [m1|] eqn:E; [|done].
    intros Hrun. eapply rtc_l; [by eapply sched_step_step|by apply IH].
Qed.

(** The loop of [load], run with no thread in between: one thread per
    file, in the order of the listing, none of them started. *)
Lemma boot_loop (cfs : list string) (st : State) (lock : option nat) (ts : list Task) :
  exists st',
    rtc step (mkMachine st lock (MLoop cfs) ts)
             (mkMachine st' lock MReturned (ts ++ map TStart cfs))
    /\ _router st' = _router st.
Proof.
  revert st ts. induction cfs as [|cf cfs IH]; intros st ts.
  - exists (load_end st).2. split; [|apply load_end_keeps_router].
    apply rtc_once, step_main. unfold main_step. cbn [main shared].
    rewrite (returns_unit _ _ load_end_returns). by rewrite app_nil_r.
  - destruct (IH (load_dispatch cf st).2 (ts ++ [TStart cf])) as (st' & Hrun & Hr).
    exists st'. split.
    + eapply rtc_l; [|rewrite <- app_assoc in Hrun; exact Hrun].
      apply step_main. unfold main_step. cbn [main shared].
      by rewrite (returns_unit _ _ (load_dispatch_returns cf)).
    + rewrite Hr. apply load_dispatch_keeps_router.
Qed.

(** [load] can return before any thread has moved. *)
Lemma boot_returns (dir : string) (reloader : bool) :
  exists m,
    rtc step (init dir reloader) m
    /\ main m = MReturned
    /\ threads m = map TStart (glob_py dir)
    /\ _router (shared m) = ∅.
Proof.
  set (st0 := shared (init dir reloader)).
  destruct (boot_loop (glob_py dir) (load_begin st0).2 None []) as (st' & Hrun & Hr).
  exists (mkMachine st' None MReturned ([] ++ map TStart (glob_py dir))).
  split; [|split; [reflexivity|split; [reflexivity|]]].
  - eapply rtc_l; [|exact Hrun].
    apply step_main. unfold main_step. cbn [main shared init].
    fold st0. rewrite (returns_unit _ _ load_begin_returns).
    by rewrite load_begin_app_dir.
  - cbn [shared]. rewrite Hr. apply load_begin_router.
Qed.

(** The main thread does not look at the threads it started. *)
Lemma main_step_blind (m : Machine) (ts : list Task) :
  (fun m' => (main m', shared m')) <$> main_step m
  = (fun m' => (main m', shared m'))
    <$> main_step (mkMachine (shared m) (_hooks_lock m) (main m) ts).
Proof.
  unfold main_step. cbn [main shared _hooks_lock threads].
  destruct (main m) as [|[|cf todo]| |].
  - by destruct (load_begin (shared m)) as [[[]| |] ?].
  - by destruct (load_end (shared m)) as [[[]| |] ?].
  - by destruct (load_dispatch cf (shared m)) as [[[]| |] ?].
  - done.
  - done.
Qed.

(** A thread that meets a conflict in its mount loop logs it and is over;
    the main thread and the other threads are where they were. *)
Lemma conflict_exits_thread (m : Machine) (tid : nat) (cf : string) (cfg : Scope)
    (r : string) (a : PyVal) (todo : list (string * PyVal)) :
  threads m !! tid = Some (TMounts cf cfg ((r, a) :: todo)) ->
  (Router.add_mount r a (_router (shared m))).1 <> a ->
  exists m',
    step m m'
    /\ threads m' = <[tid := TExited 1]> (threads m)
    /\ main m' = main m
    /\ _router (shared m') = _router (shared m)
    /\ Log ERROR ("Found conflicting routes for '" +:+ mount_path r +:+ "'")
       ∈ logger (shared m').
Proof.
  intros Ht Hne.
  destruct (mount_spec r a (shared m)) as (st' & ws & Hmount & Hr & Hl & _ & Herr).
  apply py_ne_true in Hne. rewrite Hne in Hmount. specialize (Herr Hne).
  exists (mkMachine st' (_hooks_lock m) (main m) (<[tid := TExited 1]> (threads m))).
  split; [|split; [done|split; [done|split]]].
  - eapply step_thread; [exact Ht|]. cbn [task_step]. by rewrite Hmount.
  - cbn [shared]. rewrite Hr. unfold Router.add_mount in *.
    destruct (_router (shared m) !! Router.normalize r) as [h|] eqn:E; [done|].
    cbn [fst] in Hne. apply py_ne_true in Hne. done.
  - cbn [shared]. rewrite Hl. apply elem_of_app. by right.
Qed.

(** C8. [load] starts one thread per configuration file and returns the
    router without waiting for them: there is a run in which [load] has
    returned, every thread is still before its first step and the table
    handed back is empty; the main thread can always take its next step and
    that step does not depend on the threads; and a thread in its mount
    loop, after [load] has returned, changes the very table the caller of
    [load] is serving from. *)
Theorem C8_load_returns_without_waiting (dir : string) (reloader : bool) :
  (exists m,
     rtc step (init dir reloader) m
     /\ main m = MReturned
     /\ threads m = map TStart (glob_py dir)
     /\ serving m = Some ∅)
  /\ (forall m, main m <> MReturned -> main m <> MCrashed -> is_Some (main_step m))
  /\ (forall m ts,
        (fun m' => (main m', shared m')) <$> main_step m
        = (fun m' => (main m', shared m'))
          <$> main_step (mkMachine (shared m) (_hooks_lock m) (main m) ts))
  /\ (forall m tid cf cfg r a todo,
        main m = MReturned ->
        threads m !! tid = Some (TMounts cf cfg ((r, a) :: todo)) ->
        _router (shared m) !! Router.normalize r = None ->
        exists m',
          step m m'
          /\ serving m = Some (_router (shared m))
          /\ serving m' = Some (<[Router.normalize r := a]> (_router (shared m)))).
Proof.
  split; [|split; [apply main_step_enabled|split; [apply main_step_blind|]]].
  - destruct (boot_returns dir reloader) as (m & Hrun & Hm & Ht & Hr).
    exists m. repeat split; try done. unfold serving. by rewrite Hm, Hr.
  - intros m tid cf cfg r a todo Hm Ht Hfree.
    destruct (mount_spec r a (shared m)) as (st' & ws & Hmount & Hr & _).
    rewrite (add_mount_absent r a _ Hfree) in Hmount, Hr. cbn [fst snd] in *.
    eexists. split; [|split].
    + eapply step_thread; [exact Ht|]. cbn [task_step]. by rewrite Hmount.
    + unfold serving. by rewrite Hm.
    + unfold serving. cbn [main shared]. by rewrite Hm, Hr.
Qed.

End BootClaims.

(** ** The claims on isolation *)

Section IsolationClaims.

Context `{External}.

Lemma load_start_fails (cf : string) (e : Exn) (st : State) :
  fails_before_merge cf e -> load_start cf st = (Raise e, entered cf st).
Proof.
  unfold load_start, bind, log, modify, lift.
  intros [He|(cfg & He & Hm & Hi)]; rewrite He; [done|].
  unfold default_mounts. rewrite Hm. unfold bind, lift.
  unfold cf_name in Hi. by rewrite Hi.
Qed.

Lemma load_body_fails (cf : string) (e : Exn) (st : State) :
  fails_before_merge cf e -> load_body cf st = (Raise e, entered cf st).
Proof.
  intros [He|(cfg & He & Hm & Hi)].
  - by apply load_body_exec_raise.
  - by eapply load_body_import_raise.
Qed.

(** The thread of a unit that fails before the merge takes three steps,
    wherever the other threads stand, and none of them touches the table or
    the hooks. *)
Lemma failed_thread_steps (cf : string) (e : Exn) (tid : nat) (lock : option nat)
    (st : State) :
  fails_before_merge cf e ->
  (exists st', task_step tid (TStart cf) lock st = Some (TExcept cf e, lock, st')
      /\ _router st' = _router st /\ _hooks st' = _hooks st)
  /\ (exists st', task_step tid (TExcept cf e) lock st = Some (TFinish cf, lock, st')
      /\ _router st' = _router st /\ _hooks st' = _hooks st)
  /\ (exists st', task_step tid (TFinish cf) lock st = Some (TDone, lock, st')
      /\ _router st' = _router st /\ _hooks st' = _hooks st).
Proof.
  intros Hf. split; [|split].
  - exists (entered cf st). cbn [task_step]. by rewrite (load_start_fails cf e st Hf).
  - exists (load_failed cf e st).2. cbn [task_step].
    rewrite (returns_unit _ _ (load_failed_returns cf e)).
    split; [done|]. split; [apply load_failed_keeps_router|apply load_failed_keeps_hooks].
  - exists (load_finished cf st).2. cbn [task_step].
    rewrite (returns_unit _ _ (load_finished_returns cf)).
    split; [done|].
    split; [apply load_finished_keeps_router|apply load_finished_keeps_hooks].
Qed.

(** A mount a thread has made stays: whatever the process does next, the
    path keeps the handler. *)
Lemma mounted_stays (m m1 m2 : Machine) (tid : nat) (cf : string) (cfg : Scope)
    (r : string) (a : PyVal) (todo : list (string * PyVal)) :
  main m <> MBegin ->
  threads m !! tid = Some (TMounts cf cfg ((r, a) :: todo)) ->
  sched_step (Some tid) m = Some m1 ->
  threads m1 !! tid = Some (TMounts cf cfg todo) ->
  rtc step m1 m2 ->
  _router (shared m2) !! Router.normalize r = Some a.
Proof.
  intros Hb Ht Hs Ht1 Hrun. cbn [sched_step] in Hs. rewrite Ht in Hs.
  cbn [task_step] in Hs.
  destruct (mount_spec r a (shared m)) as (st' & ws & Hmount & Hr & _).
  rewrite Hmount in Hs. injection Hs as <-.
  pose proof (lookup_lt_Some _ _ _ Ht) as Hlt.
  cbn [threads] in Ht1. rewrite list_lookup_insert_eq in Ht1 by done.
  destruct (py_ne (Router.add_mount r a (_router (shared m))).1 a) eqn:Hne;
    [done|].
  apply py_ne_false in Hne.
  destruct (steps_grow _ _ Hrun) as [Hg _]; [done|].
  eapply lookup_weaken; [|exact Hg]. cbn [shared]. rewrite Hr.
  by rewrite add_mount_lookup, Hne.
Qed.

(** C3, as the code has it. A unit that fails before the merge contributes
    nothing: [load_file] returns normally, the exception is logged under the
    unit's name, table and hooks are as before, and this holds step by step
    for its thread among the others. A mount made by another thread stays in
    the table whatever happens afterwards, and [load] itself never ends in
    an exception. *)
Theorem C3_failure_before_merge_contributes_nothing :
  (forall cf e st,
     fails_before_merge cf e ->
     (load_file cf st).1 = Ret tt
     /\ _router (load_file cf st).2 = _router st
     /\ _hooks (load_file cf st).2 = _hooks st
     /\ LogException ("Exception reading config for " +:+ cf_name cf +:+ ":") e
        ∈ logger (load_file cf st).2)
  /\ (forall cf e tid lock st,
        fails_before_merge cf e ->
        (exists st', task_step tid (TStart cf) lock st = Some (TExcept cf e, lock, st')
            /\ _router st' = _router st /\ _hooks st' = _hooks st)
        /\ (exists st', task_step tid (TExcept cf e) lock st = Some (TFinish cf, lock, st')
            /\ _router st' = _router st /\ _hooks st' = _hooks st)
        /\ (exists st', task_step tid (TFinish cf) lock st = Some (TDone, lock, st')
            /\ _router st' = _router st /\ _hooks st' = _hooks st))
  /\ (forall m m1 m2 tid cf cfg r a todo,
        main m <> MBegin ->
        threads m !! tid = Some (TMounts cf cfg ((r, a) :: todo)) ->
        sched_step (Some tid) m = Some m1 ->
        threads m1 !! tid = Some (TMounts cf cfg todo) ->
        rtc step m1 m2 ->
        _router (shared m2) !! Router.normalize r = Some a)
  /\ (forall dir reloader m,
        rtc step (init dir reloader) m -> main m <> MCrashed).
Proof.
  split; [|split; [|split]].
  - intros cf e st Hf.
    pose proof (load_body_fails cf e st Hf) as Hb.
    destruct (load_file_caught cf e st _ Hb) as [Hret Hlog].
    destruct (load_file_after_body cf st) as (Hr & Hh & _).
    rewrite Hb in Hr, Hh. by repeat split.
  - intros cf e tid lock st Hf. by apply failed_thread_steps.
  - intros m m1 m2 tid cf cfg r a todo. apply mounted_stays.
  - apply no_crash_reachable.
Qed.



End IsolationClaims.

(** ** A thread alone runs [load_file] *)

Section Refinement.

Context `{External}.

Lemma task_run_stuck (n tid : nat) (t : Task) (lock : option nat) (st : State) :
  task_step tid t lock st = None -> task_run n tid t lock st = (t, lock, st).
Proof. intros Hs. destruct n; [done|]. cbn [task_run]. by rewrite Hs. Qed.

Lemma task_run_add (n k tid : nat) (t : Task) (lock : option nat) (st : State) :
  task_run (n + k) tid t lock st
  = let '(t1, lock1, st1) := task_run n tid t lock st in
    task_run k tid t1 lock1 st1.
Proof.
  revert t lock st. induction n as [|n IH]; intros t lock st; [done|].
  cbn [Nat.add task_run].
  destruct (task_step tid t lock st) as [[[t1 lock1] st1]|] eqn:Es; [apply IH|].
  by rewrite task_run_stuck.
Qed.

(** Running on from where [n] steps have led. *)
Lemma task_run_then (n k tid : nat) (t t1 : Task) (lock lock1 : option nat)
    (st st1 : State) (res : Task * option nat * State) :
  task_run n tid t lock st = (t1, lock1, st1) ->
  task_run k tid t1 lock1 st1 = res ->
  task_run (n + k) tid t lock st = res.
Proof. intros Hn Hk. by rewrite task_run_add, Hn. Qed.

Lemma run_mounts (tid : nat) (cf : string) (cfg : Scope)
    (declared : list (string * PyVal)) (st : State) :
  exists n,
    task_run n tid (TMounts cf cfg declared) None st
    = (match (for_each declared mount st).1 with
       | Ret _ => TAcquire cf cfg
       | Raise e => TExcept cf e
       | Exit code => TExited code
       end, None, (for_each declared mount st).2).
Proof.
  revert st. induction declared as [|ra todo IH]; intros st.
  - by exists 1%nat.
  - cbn [for_each]. unfold bind.
    destruct (mount ra st) as [[[]|e|code] st1] eqn:Em.
    + destruct (IH st1) as [n Hn]. exists (S n).
      cbn [task_run task_step]. by rewrite Em.
    + exists 1%nat. cbn [task_run task_step]. by rewrite Em.
    + exists 1%nat. cbn [task_run task_step]. by rewrite Em.
Qed.

Lemma run_hooks (tid : nat) (cf : string) (cfg : Scope)
    (items : list (string * Hook)) (st : State) :
  exists n,
    task_run n tid (THooks cf cfg items) (Some tid) st
    = (after_body cf (for_each items (setup_hook cfg) st).1, None,
       (for_each items (setup_hook cfg) st).2).
Proof.
  revert st. induction items as [|item todo IH]; intros st.
  - by exists 1%nat.
  - cbn [for_each]. unfold bind.
    destruct (setup_hook cfg item st) as [[[]|e|code] st1] eqn:Es.
    + destruct (IH st1) as [n Hn]. exists (S n).
      cbn [task_run task_step]. by rewrite Es.
    + exists 1%nat. cbn [task_run task_step]. by rewrite Es.
    + exists 1%nat. cbn [task_run task_step]. by rewrite Es.
Qed.

Lemma load_body_start (cf : string) (st : State) :
  load_body cf st
  = match load_start cf st with
    | (Ret (cfg, declared), st0) =>
        (run for_each declared mount ;; _setup_hooks cfg) st0
    | (Raise e, st0) => (Raise e, st0)
    | (Exit code, st0) => (Exit code, st0)
    end.
Proof.
  unfold load_body, load_start, bind at 1 2 3 5 6 7, log, modify, lift, ret.
  destruct (execfile cf) as [cfg|e|code]; [|done..].
  by destruct (default_mounts cf cfg _) as [[declared|e|code] st1].
Qed.

Lemma run_body (tid : nat) (cf : string) (st : State) :
  exists n,
    task_run n tid (TStart cf) None st
    = (after_body cf (load_body cf st).1, None, (load_body cf st).2).
Proof.
  rewrite load_body_start.
  destruct (load_start cf st) as [[[cfg declared]|e|code] st0] eqn:Es.
  - destruct (run_mounts tid cf cfg declared st0) as [n1 Hn1].
    unfold bind. destruct (for_each declared mount st0) as [[[]|e|code] st1].
    + destruct (run_hooks tid cf cfg (map_to_list (_hooks st1)) st1) as [n2 Hn2].
      exists (1 + (n1 + (1 + n2)))%nat.
      eapply task_run_then; [cbn [task_run task_step]; by rewrite Es|].
      eapply task_run_then; [exact Hn1|].
      eapply task_run_then; [done|]. exact Hn2.
    + exists (1 + n1)%nat.
      eapply task_run_then; [cbn [task_run task_step]; by rewrite Es|]. exact Hn1.
    + exists (1 + n1)%nat.
      eapply task_run_then; [cbn [task_run task_step]; by rewrite Es|]. exact Hn1.
  - exists 1%nat. cbn [task_run task_step]. by rewrite Es.
  - exists 1%nat. cbn [task_run task_step]. by rewrite Es.
Qed.

(** A thread that nothing interrupts does what [load_file] does: given
    enough steps it ends as [load_file] ends, with the lock free and the
    application as [load_file] leaves it. *)
Lemma task_run_load_file (tid : nat) (cf : string) (st : State) :
  exists n,
    task_run n tid (TStart cf) None st
    = (after_load (load_file cf st).1, None, (load_file cf st).2).
Proof.
  destruct (run_body tid cf st) as [n Hn].
  pose proof (load_file_cases cf st) as Hc.
  destruct (load_body cf st) as [[[]|e|code] st1]; cbn [after_body fst snd] in Hn;
    rewrite Hc.
  - exists (n + 1)%nat. eapply task_run_then; [exact Hn|].
    cbn [task_run task_step].
    by rewrite (returns_unit _ _ (load_finished_returns cf)).
  - exists (n + 2)%nat. eapply task_run_then; [exact Hn|].
    cbn [task_run task_step].
    rewrite (returns_unit _ _ (load_failed_returns cf e)).
    by rewrite (returns_unit _ _ (load_finished_returns cf)).
  - exists n. exact Hn.
Qed.

End Refinement.

(** * Further properties of the loader, the registry and the boot *)

(** ** The loader's trimming of a mount key *)

Lemma mount_path_no_trailing (r : string) :
  pystr.endswith pystr.slash (mount_path r) = false.
Proof.
  rewrite mount_path_rstrip. cbv zeta.
  pose proof (rstrip_endswith pystr.slash r) as Hend.
  destruct (pystr.rstrip pystr.slash r) as [|b t]; [done|].
  cbn [nonempty andb].
  destruct (pystr.startswith pystr.slash (String b t)); cbn [negb]; [done|].
  by rewrite endswith_cons.
Qed.

Lemma mount_path_leading (r : string) :
  mount_path r = EmptyString \/ pystr.startswith pystr.slash (mount_path r) = true.
Proof.
  rewrite mount_path_rstrip. cbv zeta.
  destruct (pystr.rstrip pystr.slash r) as [|b t]; [by left|right].
  cbn [nonempty andb].
  by destruct (pystr.startswith pystr.slash (String b t)) eqn:E.
Qed.

Lemma mount_path_empty (r : string) :
  mount_path r = EmptyString <-> pystr.all_eq pystr.slash r = true.
Proof.
  rewrite <- rstrip_empty, mount_path_rstrip. cbv zeta.
  destruct (pystr.rstrip pystr.slash r) as [|b t]; [done|].
  by destruct (nonempty (String b t) && _).
Qed.

Lemma mount_path_fixed (r : string) :
  mount_path r = r <-> mount_warnings r = [].
Proof.
  unfold mount_path, mount_warnings. cbv zeta.
  destruct (pystr.endswith pystr.slash r) eqn:Hend.
  - split; [|by destruct (nonempty _ && _)].
    intros Heq. exfalso.
    pose proof (mount_path_no_trailing r) as Hno. unfold mount_path in Hno.
    rewrite Hend in Hno. rewrite Heq in Hno. congruence.
  - destruct (nonempty r && negb (pystr.startswith pystr.slash r)); [|done].
    split; [|done]. intros Heq. apply (f_equal String.length) in Heq.
    simpl in Heq. lia.
Qed.

Lemma mount_path_idemp (r : string) : mount_path (mount_path r) = mount_path r.
Proof.
  apply mount_path_fixed. unfold mount_warnings. cbv zeta.
  rewrite mount_path_no_trailing.
  destruct (mount_path_leading r) as [-> | ->]; [done|].
  by rewrite andb_false_r.
Qed.

(** X1. The key a mount is handed to [add_mount] under: one turn of the mount
    loop logs its warnings and goes on with [mount_path r]. That path never
    ends with '/'; it is empty or starts with '/'; it is empty exactly for a
    key made of '/' only, the root '/' among them; it is the key itself
    exactly when no warning is logged; trimming it again changes nothing. *)
Theorem mount_trims_key (r : string) (a : PyVal) (st : State) :
  mount (r, a) st
  = (do existing <- router_add_mount (mount_path r) a ;;
     if py_ne existing a then
       run log ERROR ("Found conflicting routes for '" +:+ mount_path r +:+ "'") ;;
       sys_exit 1
     else ret tt) (set_logger (fun l => l ++ mount_warnings r) st)
  /\ pystr.endswith pystr.slash (mount_path r) = false
  /\ (mount_path r = EmptyString \/ pystr.startswith pystr.slash (mount_path r) = true)
  /\ (mount_path r = EmptyString <-> pystr.all_eq pystr.slash r = true)
  /\ (mount_path r = r <-> mount_warnings r = [])
  /\ mount_path (mount_path r) = mount_path r.
Proof.
  split; [apply mount_unfold|].
  split; [apply mount_path_no_trailing|].
  split; [apply mount_path_leading|].
  split; [apply mount_path_empty|].
  split; [apply mount_path_fixed|apply mount_path_idemp].
Qed.

(** ** The name of a unit *)

Lemma rfind_app (c : ascii) (s t : string) :
  pystr.rfind c (s +:+ t)
  = if 0 <=? pystr.rfind c t then Z.of_nat (String.length s) + pystr.rfind c t
    else pystr.rfind c s.
Proof.
  induction s as [|a s IH].
  - rewrite append_nil_l. simpl. destruct (0 <=? pystr.rfind c t) eqn:E; [lia|].
    apply Z.leb_gt in E. pose proof (rfind_ge c t). lia.
  - rewrite append_cons. cbn [pystr.rfind String.length]. rewrite IH.
    destruct (0 <=? pystr.rfind c t) eqn:E.
    + apply Z.leb_le in E.
      assert ((0 <=? Z.of_nat (String.length s) + pystr.rfind c t) = true) as ->
        by (apply Z.leb_le; lia).
      lia.
    + done.
Qed.

Lemma rfind_absent (c : ascii) (s : string) :
  pystr.contains c s = false -> pystr.rfind c s = -1.
Proof.
  induction s as [|a s IH]; [done|]. simpl.
  intros [Ha Hs]%orb_false_iff. by rewrite (IH Hs), Ha.
Qed.

Lemma contains_app (c : ascii) (s t : string) :
  pystr.contains c (s +:+ t) = pystr.contains c s || pystr.contains c t.
Proof.
  induction s as [|a s IH]; [done|]. rewrite append_cons. simpl.
  by rewrite IH, orb_assoc.
Qed.

Lemma pystr_drop_app (s t : string) :
  pystr.drop (String.length s) (s +:+ t) = t.
Proof. induction s as [|a s IH]; [by destruct t|]. by rewrite append_cons. Qed.

Lemma pystr_take_app (s t : string) :
  pystr.take (String.length s) (s +:+ t) = s.
Proof.
  induction s as [|a s IH]; [by destruct t|]. rewrite append_cons. simpl.
  by rewrite IH.
Qed.

(** The last component of a path is what follows its last '/'. *)
Lemma basename_join (dir file : string) :
  pystr.contains pystr.slash file = false ->
  os_path.basename (dir +:+ String pystr.slash file) = file.
Proof.
  intros Hf. unfold os_path.basename.
  assert (pystr.rfind pystr.slash (String pystr.slash file) = 0) as H0.
  { cbn [pystr.rfind]. by rewrite (rfind_absent _ _ Hf). }
  rewrite rfind_app, H0. cbn.
  replace (Z.to_nat (Z.of_nat (String.length dir) + 0 + 1))
    with (String.length (dir +:+ String pystr.slash EmptyString))
    by (rewrite length_append; simpl; lia).
  change (String pystr.slash file) with (String pystr.slash EmptyString +:+ file).
  rewrite <- append_assoc. apply pystr_drop_app.
Qed.

(** The root of "name.py" is "name", unless the name is made of dots. *)
Lemma splitext_root_py (name : string) :
  pystr.contains pystr.slash name = false ->
  os_path.splitext_root (name +:+ ".py")
  = if pystr.all_eq pystr.dot name then name +:+ ".py" else name.
Proof.
  intros Hn. unfold os_path.splitext_root.
  assert (pystr.rfind pystr.slash (name +:+ ".py") = -1) as ->.
  { apply rfind_absent. rewrite contains_app, Hn. done. }
  assert (pystr.rfind pystr.dot (name +:+ ".py") = Z.of_nat (String.length name)) as ->.
  { rewrite rfind_app.
    assert (pystr.rfind pystr.dot ".py" = 0) as -> by reflexivity.
    cbn. lia. }
  assert ((-1 <? Z.of_nat (String.length name)) = true) as -> by (apply Z.ltb_lt; lia).
  change (Z.to_nat (-1 + 1)) with O. change (pystr.drop 0 ?s) with s.
  replace (Z.to_nat (Z.of_nat (String.length name) - (-1 + 1)))
    with (String.length name) by lia.
  rewrite Nat2Z.id, pystr_take_app. done.
Qed.

(** X2. The name of the unit in file "dir/name.py" is "name"; a file whose name
    before ".py" is empty or made of dots keeps the ".py". *)
Theorem unit_name_of_file (dir name : string) :
  pystr.contains pystr.slash name = false ->
  cf_name (dir +:+ String pystr.slash (name +:+ ".py"))
  = if pystr.all_eq pystr.dot name then name +:+ ".py" else name.
Proof.
  intros Hn. unfold cf_name. rewrite basename_join.
  - by apply splitext_root_py.
  - by rewrite contains_app, Hn.
Qed.

(** ** What a load does to the table, the hooks and the reloader *)

Section LoaderExtras.

Context `{External}.

Lemma load_start_cases (cf : string) (st : State) :
  load_start cf st
  = (match execfile cf with
     | Ret cfg =>
         match mounts cfg with
         | [] =>
             match import_app (cf_name cf) with
             | Ret a => Ret (cfg, [(String pystr.slash (cf_name cf), a)])
             | Raise e => Raise e
             | Exit code => Exit code
             end
         | _ => Ret (cfg, mounts cfg)
         end
     | Raise e => Raise e
     | Exit code => Exit code
     end, entered cf st).
Proof.
  unfold load_start, bind, log, modify, lift, default_mounts, ret, entered, cf_name.
  destruct (execfile cf) as [cfg|e|code]; [|done..].
  destruct (mounts cfg) as [|ra declared]; [|done].
  unfold bind, lift. by destruct (import_app _).
Qed.

(** The mount loop ends by returning or by [sys.exit(1)]. *)
Lemma mounts_result (declared : list (string * PyVal)) (st : State) :
  (for_each declared mount st).1 = Ret tt
  \/ (for_each declared mount st).1 = Exit 1.
Proof.
  revert st. induction declared as [|[r a] declared IH]; intros st; [by left|].
  cbn [for_each]. unfold bind.
  destruct (mount_spec r a st) as (st1 & ws & -> & _).
  destruct (py_ne _ _); [by right|apply IH].
Qed.

(** A mount loop that returned has every pair in the table. *)
Lemma mounts_returned (declared : list (string * PyVal)) (st st' : State) :
  for_each declared mount st = (Ret tt, st') ->
  forall r a, (r, a) ∈ declared -> _router st' !! Router.normalize r = Some a.
Proof.
  revert st. induction declared as [|[r0 a0] declared IH]; intros st Hrun r a Hin.
  - by apply elem_of_nil in Hin.
  - cbn [for_each] in Hrun. unfold bind in Hrun.
    destruct (mount_spec r0 a0 st) as (st1 & ws & Hm & Hr & _).
    rewrite Hm in Hrun. destruct (py_ne _ a0) eqn:Hne; [done|].
    apply py_ne_false in Hne.
    apply elem_of_cons in Hin as [[= -> ->]|Hin]; [|by eapply IH].
    pose proof (preserves_for_each grows declared mount
                  (fun x _ => mount_grows x) st1) as Hg.
    rewrite Hrun in Hg. eapply lookup_weaken; [|exact Hg].
    rewrite Hr, add_mount_lookup. by rewrite Hne.
Qed.

(** Whatever its end, a mount loop adds nothing but its own pairs. *)
Lemma mounts_adds_only (declared : list (string * PyVal)) (st : State)
    (k : string) (h : PyVal) :
  _router (for_each declared mount st).2 !! k = Some h ->
  _router st !! k = Some h \/ declares declared k h.
Proof.
  revert st. induction declared as [|[r0 a0] declared IH]; intros st Hk; [by left|].
  cbn [for_each] in Hk. unfold bind in Hk.
  destruct (mount_spec r0 a0 st) as (st1 & ws & Hm & Hr & _). rewrite Hm in Hk.
  assert (_router st1 !! k = Some h ->
          _router st !! k = Some h \/ declares ((r0, a0) :: declared) k h) as Hhead.
  { rewrite Hr. unfold Router.add_mount.
    destruct (_router st !! Router.normalize r0) eqn:E; simpl; [by left|].
    intros [[<- <-]|[_ ?]]%lookup_insert_Some; [|by left].
    right. exists r0. split; [by left|done]. }
  destruct (py_ne _ a0).
  - by apply Hhead.
  - destruct (IH st1 Hk) as [Hold|(r & Hin & ->)]; [by apply Hhead|].
    right. exists r. split; [by right|done].
Qed.

(** A mount loop that ends in [sys.exit] has logged the conflict. *)
Lemma mounts_exited (declared : list (string * PyVal)) (st : State) (code : Z) :
  (for_each declared mount st).1 = Exit code ->
  code = 1
  /\ exists r, Log ERROR ("Found conflicting routes for '" +:+ r +:+ "'")
               ∈ logger (for_each declared mount st).2.
Proof.
  revert st. induction declared as [|[r0 a0] declared IH]; intros st Hrun; [done|].
  cbn [for_each] in *. unfold bind in *.
  destruct (mount_spec r0 a0 st) as (st1 & ws & Hm & _ & Hl & _ & Herr).
  rewrite Hm in *. destruct (py_ne _ a0); [|by apply IH].
  simpl in *. split; [congruence|]. exists (mount_path r0).
  rewrite Hl. apply elem_of_app. right. by apply Herr.
Qed.

Lemma for_each_mount_keeps_hooks (declared : list (string * PyVal)) :
  preserves (keeps _hooks) (for_each declared mount).
Proof. apply preserves_for_each; [apply _|]. intros ra _. apply mount_keeps_hooks. Qed.

Lemma for_each_mount_keeps_trace (declared : list (string * PyVal)) :
  preserves (keeps trace) (for_each declared mount).
Proof. apply preserves_for_each; [apply _|]. intros ra _. apply mount_keeps_trace. Qed.

Lemma load_file_grows (cf : string) : preserves grows (load_file cf).
Proof.
  unfold load_file, load_body, load_failed, load_finished, _setup_hooks.
  frame.
  - apply mount_grows.
  - unfold setup_hook. frame.
Qed.

(** A turn of [_setup_hooks] ends in [SystemExit] only if the validator does. *)
Lemma setup_hooks_exited (cfg : Scope) (items : list (string * Hook)) (st : State)
    (code : Z) :
  (for_each items (setup_hook cfg) st).1 = Exit code ->
  exists name hook, (name, hook) ∈ items
    /\ validator hook (scope_get cfg name) = Exit code.
Proof.
  revert st. induction items as [|[name hook] items IH]; intros st Hrun; [done|].
  cbn [for_each] in Hrun. unfold bind in Hrun.
  destruct (truthy (scope_get cfg name)) eqn:Ht.
  - destruct (setup_hook_truthy cfg name hook st Ht) as (st1 & _ & _ & _ & _ & Hv).
    destruct (validator hook (scope_get cfg name)) as [[]|e|c] eqn:Ev.
    + destruct Hv as (st' & Hs & _). rewrite Hs in Hrun.
      destruct (IH st' Hrun) as (n & hk & Hin & Hx).
      exists n, hk. split; [by right|done].
    + by rewrite Hv in Hrun.
    + rewrite Hv in Hrun. simpl in Hrun. exists name, hook.
      split; [by left|congruence].
  - rewrite (setup_hook_falsy cfg name hook st Ht) in Hrun.
    destruct (IH st Hrun) as (n & hk & Hin & Hx).
    exists n, hk. split; [by right|done].
Qed.

Lemma for_each_add_extra_file (fs : list string) (st : State) :
  (for_each fs add_extra_file st).1 = Ret tt
  /\ _reloader (for_each fs add_extra_file st).2 = _reloader st ++ fs.
Proof.
  revert st. induction fs as [|f fs IH]; intros st.
  - split; [done|]. simpl. by rewrite app_nil_r.
  - destruct (IH (set_reloader (fun fs0 => fs0 ++ [f]) st)) as [Hr Hf].
    change (for_each (f :: fs) add_extra_file st)
      with (for_each fs add_extra_file (set_reloader (fun fs0 => fs0 ++ [f]) st)).
    split; [done|]. rewrite Hf. simpl. by rewrite <- app_assoc.
Qed.

Lemma load_failed_reloader (cf : string) (e : Exn) (st : State) :
  _reloader (load_failed cf e st).2
  = _reloader st ++ (if _use_reloader st then blamed e else []).
Proof.
  unfold load_failed, bind, get, log_exception, modify, blamed.
  destruct (_use_reloader st); simpl; [|by rewrite app_nil_r].
  destruct (for_each_add_extra_file (exn_tb_files e) st) as [Hr Hf].
  destruct (for_each (exn_tb_files e) add_extra_file st) as [r st1].
  simpl in Hr, Hf. subst r.
  destruct (exn_syntax_filename e) as [f|]; simpl; rewrite Hf.
  - by rewrite <- app_assoc.
  - by rewrite app_nil_r.
Qed.

Lemma load_body_keeps_reloader (cf : string) :
  preserves (keeps _reloader) (load_body cf).
Proof.
  unfold load_body, _setup_hooks, mount, strip_trailing, add_leading. frame.
  unfold setup_hook. frame.
Qed.

Lemma load_body_keeps_use_reloader (cf : string) :
  preserves (keeps _use_reloader) (load_body cf).
Proof.
  unfold load_body, _setup_hooks, mount, strip_trailing, add_leading. frame.
  unfold setup_hook. frame.
Qed.

Lemma load_finished_keeps_reloader (cf : string) :
  preserves (keeps _reloader) (load_finished cf).
Proof. unfold load_finished. frame. Qed.

Lemma load_file_adds (cf : string) (st : State) (k : string) (h : PyVal) :
  _router (load_file cf st).2 !! k = Some h ->
  _router st !! k = Some h \/ unit_mounts cf k h.
Proof.
  destruct (load_file_after_body cf st) as (-> & _).
  rewrite load_body_start, load_start_cases. unfold unit_mounts.
  destruct (execfile cf) as [cfg|e|code]; [|(intros Hk; left; exact Hk)..].
  destruct (mounts cfg) as [|ra declared] eqn:Em.
  - destruct (import_app (cf_name cf)) as [a|e|code] eqn:Ei;
      [|(intros Hk; left; exact Hk)..].
    rewrite mounts_then_hooks_router. intros Hk.
    apply mounts_adds_only in Hk as [Hold|(r & Hin & ->)]; [by left|].
    apply list_elem_of_singleton in Hin as [= -> ->].
    right. exists cfg. split; [done|]. right. split; [done|]. split; [done|].
    apply normalize_slash_name, cf_name_no_slash.
  - rewrite mounts_then_hooks_router. intros Hk.
    apply mounts_adds_only in Hk as [Hold|Hd]; [by left|].
    right. exists cfg. split; [done|]. left. by rewrite Em.
Qed.

(** A load that returned has made every mount of its unit. *)
Lemma returned_load_present (cf : string) (st : State) (k : string) (h : PyVal) :
  (load_file cf st).1 = Ret tt -> unit_mounts cf k h ->
  _router (load_file cf st).2 !! k = Some h.
Proof.
  intros Hret (cfg & He & Hu).
  destruct (load_file_after_body cf st) as (-> & _).
  pose proof (load_file_cases cf st) as Hc.
  rewrite load_body_start, load_start_cases, He in *.
  assert (forall declared r,
            match (run for_each declared mount ;; _setup_hooks cfg) (entered cf st) with
            | (Ret _, st1) => load_file cf st = load_finished cf st1
            | (Raise e, st1) =>
                load_file cf st = load_finished cf (load_failed cf e st1).2
            | (Exit code, st1) => load_file cf st = (Exit code, st1)
            end ->
            (r, h) ∈ declared ->
            _router ((run for_each declared mount ;; _setup_hooks cfg)
                       (entered cf st)).2 !! Router.normalize r = Some h) as Hloop.
  { intros declared r Hcase Hin. rewrite mounts_then_hooks_router.
    unfold bind in Hcase.
    pose proof (mounts_result declared (entered cf st)) as Hres.
    destruct (for_each declared mount (entered cf st)) as [res st1] eqn:El.
    cbn [fst] in Hres. destruct Hres as [-> | ->].
    - exact (mounts_returned _ _ _ El r h Hin).
    - by rewrite Hcase in Hret. }
  destruct Hu as [(r & Hin & ->)|(Hm & Hi & ->)].
  - destruct (mounts cfg) as [|ra declared] eqn:Em; [by apply elem_of_nil in Hin|].
    by apply Hloop.
  - rewrite Hm, Hi in *.
    pose proof (Hloop [(String pystr.slash (cf_name cf), h)]
                  (String pystr.slash (cf_name cf)) Hc) as Hp.
    rewrite normalize_slash_name in Hp by apply cf_name_no_slash.
    apply Hp. by left.
Qed.

(** X3. The table after [load_file]: every entry there was is still there, and
    an entry that is new is one of the unit's own mounts under its
    normalized key, or, for a unit that declared none, the one of its name. *)
Theorem load_file_adds_own_mounts (cf : string) (st : State) :
  _router st ⊆ _router (load_file cf st).2
  /\ forall k h, _router (load_file cf st).2 !! k = Some h ->
       _router st !! k = Some h \/ unit_mounts cf k h.
Proof. split; [apply load_file_grows|apply load_file_adds]. Qed.

(** X4. The table after a load that returned is the table before and the
    mounts of the unit, all of them, whether or not its hooks were
    accepted. *)
Theorem returned_load_table (cf : string) (st : State) :
  (load_file cf st).1 = Ret tt ->
  forall k h, _router (load_file cf st).2 !! k = Some h <->
    _router st !! k = Some h \/ unit_mounts cf k h.
Proof.
  intros Hret k h. split; [apply load_file_adds|].
  intros [Hold|Hu]; [|by apply returned_load_present].
  eapply lookup_weaken; [exact Hold|apply load_file_grows].
Qed.

(** X5. Two units that load without a conflict in either order leave the same
    table in either order. *)
Theorem loads_commute (cf1 cf2 : string) (st : State) :
  (load_file cf1 st).1 = Ret tt ->
  (load_file cf2 (load_file cf1 st).2).1 = Ret tt ->
  (load_file cf2 st).1 = Ret tt ->
  (load_file cf1 (load_file cf2 st).2).1 = Ret tt ->
  _router (load_file cf2 (load_file cf1 st).2).2
  = _router (load_file cf1 (load_file cf2 st).2).2.
Proof.
  intros H1 H12 H2 H21. apply map_eq. intros k. apply option_eq. intros h.
  split.
  - intros [[Hst|Hu1]%load_file_adds|Hu2]%load_file_adds.
    + eapply lookup_weaken; [|apply load_file_grows].
      eapply lookup_weaken; [exact Hst|apply load_file_grows].
    + by apply returned_load_present.
    + eapply lookup_weaken; [|apply load_file_grows].
      by apply returned_load_present.
  - intros [[Hst|Hu2]%load_file_adds|Hu1]%load_file_adds.
    + eapply lookup_weaken; [|apply load_file_grows].
      eapply lookup_weaken; [exact Hst|apply load_file_grows].
    + by apply returned_load_present.
    + eapply lookup_weaken; [|apply load_file_grows].
      by apply returned_load_present.
Qed.

(** X6. A unit cannot mount two handlers on keys with the same normalization:
    its load ends in [sys.exit(1)], before any of its hooks is looked at. *)
Theorem unit_conflicts_with_itself (cf : string) (cfg : Scope) (st : State)
    (r1 r2 : string) (a1 a2 : PyVal) :
  execfile cf = Ret cfg ->
  (r1, a1) ∈ mounts cfg -> (r2, a2) ∈ mounts cfg ->
  Router.normalize r1 = Router.normalize r2 -> a1 <> a2 ->
  (load_file cf st).1 = Exit 1
  /\ _hooks (load_file cf st).2 = _hooks st
  /\ trace (load_file cf st).2 = trace st.
Proof.
  intros He H1 H2 Hn Hne.
  assert (mounts cfg <> []) as Hm by (intros Hnil; rewrite Hnil in H1; by apply elem_of_nil in H1).
  pose proof (load_file_cases cf st) as Hc.
  rewrite (load_body_declared cf cfg st He Hm) in Hc. unfold bind in Hc.
  pose proof (mounts_result (mounts cfg) (entered cf st)) as Hres.
  pose proof (for_each_mount_keeps_hooks (mounts cfg) (entered cf st)) as Hh.
  pose proof (for_each_mount_keeps_trace (mounts cfg) (entered cf st)) as Ht.
  destruct (for_each (mounts cfg) mount (entered cf st)) as [r st1] eqn:El.
  simpl in Hres. destruct Hres as [-> | ->].
  - exfalso. pose proof (mounts_returned _ _ _ El) as Hall.
    pose proof (Hall r1 a1 H1) as L1. pose proof (Hall r2 a2 H2) as L2.
    rewrite Hn in L1. congruence.
  - rewrite Hc. done.
Qed.

Lemma for_each_app {A} (xs ys : list A) (body : A -> M unit) (st : State) :
  for_each (xs ++ ys) body st
  = match for_each xs body st with
    | (Ret _, st1) => for_each ys body st1
    | other => other
    end.
Proof.
  revert st. induction xs as [|x xs IH]; intros st; [done|].
  cbn [app for_each]. unfold bind. destruct (body x st) as [[[]|e|c] st1]; [|done..].
  apply IH.
Qed.

(** X7. The first conflict ends the loop over a unit's mounts: the mounts
    before it stay in the table, those after it are never made, and the
    load ends in [sys.exit(1)] with the table as the conflict found it. *)
Theorem conflict_stops_mount_loop (cf : string) (cfg : Scope) (st st1 : State)
    (before after : list (string * PyVal)) (r : string) (a h : PyVal) :
  execfile cf = Ret cfg ->
  mounts cfg = before ++ (r, a) :: after ->
  for_each before mount (entered cf st) = (Ret tt, st1) ->
  _router st1 !! Router.normalize r = Some h -> h <> a ->
  (load_file cf st).1 = Exit 1
  /\ _router (load_file cf st).2 = _router st1
  /\ (forall r' a', (r', a') ∈ before ->
        _router (load_file cf st).2 !! Router.normalize r' = Some a')
  /\ Log ERROR ("Found conflicting routes for '" +:+ mount_path r +:+ "'")
     ∈ logger (load_file cf st).2.
Proof.
  intros He Hm Hpre Hk Hne.
  assert (mounts cfg <> []) as Hnil by (rewrite Hm; by destruct before).
  pose proof (load_file_cases cf st) as Hc.
  rewrite (load_body_declared cf cfg st He Hnil) in Hc. unfold bind in Hc.
  rewrite Hm, for_each_app, Hpre in Hc. cbn [for_each] in Hc. unfold bind in Hc.
  destruct (mount_spec r a st1) as (st2 & ws & Hrun & Hr & Hl & _ & Herr).
  rewrite (add_mount_present r a h _ Hk) in Hrun, Hr, Herr. cbn [fst snd] in *.
  assert (py_ne h a = true) as Hpy by (by apply py_ne_true).
  rewrite Hpy in Hrun, Herr. rewrite Hrun in Hc. rewrite Hc. cbn [fst snd].
  split; [done|]. split; [done|]. split.
  - intros r' a' Hin. rewrite Hr. by eapply mounts_returned.
  - rewrite Hl. apply elem_of_app. right. by apply Herr.
Qed.

(** X8. How [load_file] ends. No exception leaves it. It ends in [SystemExit]
    only when the unit's code does (in [execfile] or [import_app]), when a
    validator of the registry does, or on a conflict: then with code 1,
    the conflict logged, no hook of the unit registered or validated. *)
Theorem load_file_exit_causes (cf : string) (st : State) :
  (forall e, (load_file cf st).1 <> Raise e)
  /\ forall code, (load_file cf st).1 = Exit code ->
       execfile cf = Exit code
       \/ (exists cfg, execfile cf = Ret cfg /\ mounts cfg = []
                       /\ import_app (cf_name cf) = Exit code)
       \/ (exists cfg name hook, execfile cf = Ret cfg
             /\ _hooks st !! name = Some hook
             /\ validator hook (scope_get cfg name) = Exit code)
       \/ (code = 1
           /\ _hooks (load_file cf st).2 = _hooks st
           /\ trace (load_file cf st).2 = trace st
           /\ exists r, Log ERROR ("Found conflicting routes for '" +:+ r +:+ "'")
                        ∈ logger (load_file cf st).2).
Proof.
  split; [intros e; apply load_file_no_raise|]. intros code.
  pose proof (load_file_cases cf st) as Hc.
  destruct (load_body cf st) as [[[]|e|c] st1] eqn:Eb; rewrite Hc.
  - by rewrite (returns_unit _ _ (load_finished_returns cf)).
  - by rewrite (returns_unit _ _ (load_finished_returns cf)).
  - cbn [fst snd]. intros [= ->].
    rewrite load_body_start, load_start_cases in Eb.
    assert (forall cfg declared,
              (run for_each declared mount ;; _setup_hooks cfg) (entered cf st)
              = (Exit code, st1) ->
              (exists name hook, _hooks st !! name = Some hook
                 /\ validator hook (scope_get cfg name) = Exit code)
              \/ (code = 1 /\ _hooks st1 = _hooks st /\ trace st1 = trace st
                  /\ exists r,
                       Log ERROR ("Found conflicting routes for '" +:+ r +:+ "'")
                       ∈ logger st1)) as Hloop.
    { intros cfg declared Hrun. unfold bind in Hrun.
      pose proof (for_each_mount_keeps_hooks declared (entered cf st)) as Hh.
      pose proof (for_each_mount_keeps_trace declared (entered cf st)) as Ht.
      pose proof (mounts_exited declared (entered cf st)) as Hx.
      unfold keeps in Hh, Ht.
      destruct (for_each declared mount (entered cf st)) as [[[]|e|c] st2];
        simpl in Hh, Ht.
      - left. unfold _setup_hooks, bind, get in Hrun.
        apply (f_equal fst) in Hrun. cbn [fst] in Hrun.
        destruct (setup_hooks_exited _ _ _ _ Hrun) as (name & hook & Hin & Hv).
        exists name, hook. split; [|done].
        apply elem_of_map_to_list in Hin. by rewrite <- Hh.
      - done.
      - right. simplify_eq. destruct (Hx code eq_refl) as (-> & Hlog). done. }
    destruct (execfile cf) as [cfg|e|c]; [|done|left; congruence].
    destruct (mounts cfg) as [|ra declared] eqn:Em.
    + destruct (import_app (cf_name cf)) as [a|e|c] eqn:Ei;
        [|done|right; left; exists cfg; repeat split; congruence].
      destruct (Hloop _ _ Eb) as [(name & hook & Hl & Hv)|Hconf].
      * right. right. left. by exists cfg, name, hook.
      * by repeat right.
    + destruct (Hloop _ _ Eb) as [(name & hook & Hl & Hv)|Hconf].
      * right. right. left. by exists cfg, name, hook.
      * by repeat right.
Qed.

(** X9. What [load_file] gives the reloader: nothing when the unit loads; when
    its [try] block raises and the reloader is on, the files of the
    traceback, in order, then the file a [SyntaxError] names. *)
Theorem load_file_watches_failure (cf : string) (st : State) :
  _reloader (load_file cf st).2
  = _reloader st ++
      match (load_body cf st).1 with
      | Raise e => if _use_reloader st then blamed e else []
      | _ => []
      end.
Proof.
  pose proof (load_file_cases cf st) as Hc.
  pose proof (load_body_keeps_reloader cf st) as Hr.
  pose proof (load_body_keeps_use_reloader cf st) as Hu.
  unfold keeps in Hr, Hu.
  destruct (load_body cf st) as [[[]|e|c] st1]; rewrite Hc; cbn [fst snd] in *.
  - rewrite app_nil_r, <- Hr. exact (load_finished_keeps_reloader cf st1).
  - rewrite <- Hr, <- Hu, <- (load_failed_reloader cf).
    exact (load_finished_keeps_reloader cf _).
  - by rewrite app_nil_r.
Qed.

End LoaderExtras.

(** ** The registry of hooks *)

Section HookExtras.

Context `{External}.

Lemma setup_hooks_unfold : setup_hooks = for_each make_settings register_setting.
Proof. reflexivity. Qed.

Lemma register_setting_names (l : list (string * Setting)) (st : State) :
  NoDup l.*1 ->
  (for_each l register_setting st).1 = Ret tt
  /\ forall name,
       (name ∉ l.*1 ->
        _hooks (for_each l register_setting st).2 !! name = _hooks st !! name
        /\ cfg_hooks (for_each l register_setting st).2 !! name = cfg_hooks st !! name)
       /\ (forall obj, (name, obj) ∈ l ->
           if String.eqb (section obj) "Server Hooks" then
             _hooks (for_each l register_setting st).2 !! name
             = Some (mkHook [] (validator_of obj))
             /\ cfg_hooks (for_each l register_setting st).2 !! name
                = Some (mkProxy name (default_argspec obj))
           else
             _hooks (for_each l register_setting st).2 !! name = _hooks st !! name
             /\ cfg_hooks (for_each l register_setting st).2 !! name = cfg_hooks st !! name).
Proof.
  revert st. induction l as [|[n o] l IH]; intros st Hnd.
  - split; [done|]. intros name. split; [done|].
    intros obj Hin. by apply elem_of_nil in Hin.
  - rewrite fmap_cons in Hnd. apply NoDup_cons in Hnd as [Hn Hnd].
    cbn [fst] in Hn. cbn [for_each]. unfold bind.
    set (st1 := if String.eqb (section o) "Server Hooks"
                then set_cfg_hooks (insert n (mkProxy n (default_argspec o)))
                       (set_hooks (insert n (mkHook [] (validator_of o))) st)
                else st).
    assert (register_setting (n, o) st = (Ret tt, st1)) as ->.
    { unfold register_setting, st1. by destruct (String.eqb _ _). }
    assert (forall name, name <> n ->
              _hooks st1 !! name = _hooks st !! name
              /\ cfg_hooks st1 !! name = cfg_hooks st !! name) as Hother.
    { intros name Hne. unfold st1. destruct (String.eqb _ _); [|done].
      simpl. by rewrite !lookup_insert_ne. }
    destruct (IH st1 Hnd) as [Hret Hl]. split; [done|].
    intros name. destruct (Hl name) as [Hout Hin]. split.
    + intros Hno. rewrite fmap_cons in Hno.
      apply not_elem_of_cons in Hno as [Hne Hno]. cbn [fst] in Hne.
      destruct (Hout Hno) as [-> ->]. by apply Hother.
    + intros obj [[= -> ->]|Hobj]%elem_of_cons.
      * destruct (Hl n) as [Hout' _]. destruct (Hout' Hn) as [-> ->].
        unfold st1. destruct (String.eqb _ _); [|done].
        simpl. by rewrite !lookup_insert_eq.
      * assert (name <> n) as Hne.
        { intros ->. apply Hn. apply list_elem_of_fmap. by exists (n, obj). }
        specialize (Hin obj Hobj). destruct (Hother name Hne) as [E1 E2].
        destruct (String.eqb (section obj) "Server Hooks"); [done|].
        by rewrite <- E1, <- E2.
Qed.

(** X10. What [setup_hooks] registers: a setting of the section "Server Hooks"
    gets an entry with no handler and its validator, and a proxy of its
    name with the argument list of its default handler, whatever was
    registered under the name before; every other name is left as it is, in
    the registry and in the configuration. *)
Theorem setup_hooks_registers (st : State) :
  NoDup make_settings.*1 ->
  (setup_hooks st).1 = Ret tt
  /\ forall name,
       (forall obj, (name, obj) ∈ make_settings ->
          section obj = "Server Hooks" ->
          _hooks (setup_hooks st).2 !! name = Some (mkHook [] (validator_of obj))
          /\ cfg_hooks (setup_hooks st).2 !! name
             = Some (mkProxy name (default_argspec obj)))
       /\ ((forall obj, (name, obj) ∈ make_settings ->
              section obj <> "Server Hooks") ->
           _hooks (setup_hooks st).2 !! name = _hooks st !! name
           /\ cfg_hooks (setup_hooks st).2 !! name = cfg_hooks st !! name).
Proof.
  intros Hnd. rewrite setup_hooks_unfold.
  destruct (register_setting_names make_settings st Hnd) as [Hret Hl].
  split; [done|]. intros name. destruct (Hl name) as [Hout Hin]. split.
  - intros obj Hobj Hs. specialize (Hin obj Hobj).
    by rewrite Hs in Hin.
  - intros Hno.
    destruct (decide (name ∈ make_settings.*1)) as [Hk|Hk]; [|by apply Hout].
    apply list_elem_of_fmap in Hk as ([n obj] & -> & Hobj).
    specialize (Hin obj Hobj). specialize (Hno obj Hobj).
    destruct (String.eqb_spec (section obj) "Server Hooks"); done.
Qed.

(** X11. [_setup_hooks] when every validator accepts what the unit binds: it
    returns; an event the unit binds to a truthy value gets that one value
    appended to its handlers, after those already there; every other event
    is as before; no name is added to the registry, whatever the unit
    binds. *)
Theorem _setup_hooks_appends_once (cfg : Scope) (st : State) :
  (forall name hook, _hooks st !! name = Some hook ->
     truthy (scope_get cfg name) = true ->
     validator hook (scope_get cfg name) = Ret tt) ->
  (_setup_hooks cfg st).1 = Ret tt
  /\ forall name,
       _hooks (_setup_hooks cfg st).2 !! name
       = contributed cfg name <$> _hooks st !! name.
Proof.
  intros Hok. unfold _setup_hooks, bind, get.
  destruct (setup_hook_loop_accepts cfg (map_to_list (_hooks st)) st) as [Hret Hl].
  { apply (registry_items st EmptyString). }
  { intros name hook Hin. apply Hok. by apply (registry_items st name). }
  split; [done|]. intros name. rewrite Hl.
  destruct (decide (name ∈ (map_to_list (_hooks st)).*1)) as [Hin|Hout]; [done|].
  destruct (registry_items st name) as (_ & _ & Hnone). by rewrite (Hnone Hout).
Qed.

(** X12. A handler a unit registers is called after the handlers registered
    before it: when the validators accept the unit's bindings and the
    handlers of an event return, firing the event after [_setup_hooks]
    calls the handlers there were, in their order, then the unit's. *)
Theorem registered_handler_is_called_last (cfg : Scope) (name : string)
    (hook : Hook) (argtuple : list PyVal) (st : State) :
  (forall n hk, _hooks st !! n = Some hk ->
     truthy (scope_get cfg n) = true ->
     validator hk (scope_get cfg n) = Ret tt) ->
  _hooks st !! name = Some hook ->
  truthy (scope_get cfg name) = true ->
  (forall h, h ∈ handlers hook ++ [scope_get cfg name] ->
     call h argtuple = Ret tt) ->
  (_do_hook name argtuple (_setup_hooks cfg st).2).1 = Ret tt
  /\ trace (_do_hook name argtuple (_setup_hooks cfg st).2).2
     = trace (_setup_hooks cfg st).2
       ++ map (fun h => Called name h argtuple)
            (handlers hook ++ [scope_get cfg name]).
Proof.
  intros Hok Hl Ht Hcall.
  assert (_hooks (_setup_hooks cfg st).2 !! name
          = Some (appended (scope_get cfg name) hook)) as Hh.
  { unfold _setup_hooks, bind, get.
    destruct (setup_hook_loop_accepts cfg (map_to_list (_hooks st)) st) as [_ Hall].
    - apply (registry_items st name).
    - intros n hk Hin. apply Hok. by apply (registry_items st n).
    - rewrite Hall, Hl. rewrite decide_True.
      + unfold contributed. by rewrite Ht.
      + apply list_elem_of_fmap. exists (name, hook). split; [done|].
        by apply (registry_items st name). }
  rewrite (_do_hook_unfold name argtuple _ _ Hh). cbn [appended handlers].
  destruct (fan_out_all name argtuple (handlers hook ++ [scope_get cfg name])
              (_setup_hooks cfg st).2 Hcall) as (st' & -> & Htr).
  done.
Qed.

(** ** The hook proxies *)

Lemma _do_hook_any_tuple (name : string) (args : list PyVal) (st : State) :
  _do_hook_any name (PyList args) st = _do_hook name args st.
Proof. reflexivity. Qed.

Lemma _do_hook_any_bare (name : string) (a : PyVal) (hook : Hook) (st : State) :
  _hooks st !! name = Some hook -> star_args a = Raise call_TypeError ->
  _do_hook_any name a st
  = (match handlers hook with [] => Ret tt | _ => Raise call_TypeError end, st).
Proof.
  intros Hl Ha. unfold _do_hook_any, bind at 1, get. rewrite Hl.
  destruct (handlers hook) as [|h hs]; [done|].
  cbn [for_each]. unfold bind, lift. by rewrite Ha.
Qed.

Lemma _do_hook_any_spread (name : string) (a : PyVal) (items : list PyVal)
    (st : State) :
  star_args a = Ret items -> _do_hook_any name a st = _do_hook name items st.
Proof. intros Ha. unfold _do_hook_any. by rewrite Ha. Qed.

(** X13. What a proxy hands to the handlers. With no parameter or with two and
    more, it fires the event with the arguments it was called with. With
    one parameter, it fires the event with the argument in the place of the
    argument tuple: the handlers are called with the items of that
    argument, not with the argument; when it has no items (an object, a
    number, [None]), the first handler is not called, [TypeError] leaves
    the proxy, and only an event with no handler fires in silence. *)
Theorem proxy_hands_over (name : string) (spec : list string) (args : list PyVal)
    (hook : Hook) (st : State) :
  _hooks st !! name = Some hook ->
  length args = length spec ->
  (length spec <> 1%nat ->
   call_proxy (mkProxy name spec) args st = _do_hook name args st)
  /\ (forall a, args = [a] ->
        match star_args a with
        | Ret items =>
            call_proxy (mkProxy name spec) args st = _do_hook name items st
        | _ =>
            call_proxy (mkProxy name spec) args st
            = (match handlers hook with [] => Ret tt | _ => Raise call_TypeError end, st)
        end).
Proof.
  intros Hl Hlen. unfold call_proxy. cbn [proxy_spec proxy_name].
  rewrite Hlen, Nat.eqb_refl. split.
  - intros Hne. destruct args as [|a [|b args]]; [done| |done].
    simpl in Hlen. congruence.
  - intros a ->. cbn [proxy_argtuple].
    destruct (star_args a) as [items|e|c] eqn:Ea.
    + by apply _do_hook_any_spread.
    + assert (e = call_TypeError) as -> by (destruct a; simpl in Ea; congruence).
      by apply _do_hook_any_bare.
    + destruct a; discriminate Ea.
Qed.

End HookExtras.

(** ** The threads and the files of the directory *)

Section BootExtras.

Context `{External}.

Lemma load_start_keeps_settled (cf : string) :
  preserves (keeps (fun st => (settled st, _reloader st))) (load_start cf).
Proof. frame. Qed.

Lemma mount_keeps_settled (ra : string * PyVal) :
  preserves (keeps (fun st => (settled st, _reloader st))) (mount ra).
Proof. unfold mount, strip_trailing, add_leading. frame. Qed.

Lemma setup_hook_keeps_settled (cfg : Scope) (item : string * Hook) :
  preserves (keeps (fun st => (settled st, _reloader st))) (setup_hook cfg item).
Proof. unfold setup_hook. frame. Qed.

Lemma load_finished_keeps_settled (cf : string) :
  preserves (keeps (fun st => (settled st, _reloader st))) (load_finished cf).
Proof. unfold load_finished. frame. Qed.

Lemma load_failed_keeps_settled (cf : string) (e : Exn) :
  preserves (keeps settled) (load_failed cf e).
Proof. unfold load_failed. frame. Qed.

Lemma load_begin_keeps_settled : preserves (keeps settled) load_begin.
Proof. unfold load_begin, setup_hooks. frame. Qed.

Lemma load_dispatch_keeps_settled (cf : string) :
  preserves (keeps settled) (load_dispatch cf).
Proof. frame. Qed.

Lemma load_end_keeps_settled :
  preserves (keeps (fun st => (settled st, _reloader st))) load_end.
Proof. frame. Qed.

Lemma load_dispatch_reloader (cf : string) (st : State) :
  _reloader (load_dispatch cf st).2
  = _reloader st ++ (if _use_reloader st then [cf] else []).
Proof.
  unfold load_dispatch, bind, get. destruct (_use_reloader st); [done|].
  simpl. by rewrite app_nil_r.
Qed.

Lemma keeps_settled_reloader (s s' : State) :
  keeps (fun st => (settled st, _reloader st)) s s' ->
  settled s' = settled s /\ _reloader s' = _reloader s.
Proof. unfold keeps. by intros [= E1 E2 E3]; unfold settled; rewrite E1, E2, E3. Qed.

(** A step of a thread keeps the flag and the directory, and takes no file
    from the reloader. *)
Lemma task_step_settled (tid : nat) (t t' : Task) (lock lock' : option nat)
    (st st' : State) :
  task_step tid t lock st = Some (t', lock', st') ->
  settled st' = settled st
  /\ forall f, f ∈ _reloader st -> f ∈ _reloader st'.
Proof.
  assert (forall s s' : State,
            keeps (fun st => (settled st, _reloader st)) s s' ->
            settled s' = settled s
            /\ forall f, f ∈ _reloader s -> f ∈ _reloader s') as Hsame.
  { intros s s' [E1 E2]%keeps_settled_reloader. rewrite E2. done. }
  destruct t as [cf|cf cfg [|ra todo]|cf cfg|cf cfg [|item todo]|cf e|cf| | |];
    cbn [task_step]; intros Hs.
  - pose proof (load_start_keeps_settled cf st) as Hk.
    destruct (load_start cf st) as [r st1]. simplify_eq. by apply Hsame.
  - by simplify_eq.
  - pose proof (mount_keeps_settled ra st) as Hk.
    destruct (mount ra st) as [r st1]. simplify_eq. by apply Hsame.
  - unfold lock_acquire in Hs. destruct lock; by simplify_eq.
  - by simplify_eq.
  - pose proof (setup_hook_keeps_settled cfg item st) as Hk.
    destruct (setup_hook cfg item st) as [r st1].
    assert (st' = st1) as -> by (destruct r as [[]| |]; by simplify_eq).
    by apply Hsame.
  - pose proof (load_failed_keeps_settled cf e st) as Hk.
    pose proof (load_failed_reloader cf e st) as Hr.
    destruct (load_failed cf e st) as [r st1]. simplify_eq.
    split; [exact Hk|]. intros f Hf. cbn [snd] in Hr. rewrite Hr.
    apply elem_of_app. by left.
  - pose proof (load_finished_keeps_settled cf st) as Hk.
    destruct (load_finished cf st) as [r st1]. simplify_eq. by apply Hsame.
  - done.
  - done.
  - done.
Qed.

(** A thread goes on with the file it started with. *)
Lemma task_step_file (tid : nat) (t t' : Task) (lock lock' : option nat)
    (st st' : State) (cf : string) :
  task_step tid t lock st = Some (t', lock', st') ->
  task_file t' = Some cf -> task_file t = Some cf.
Proof.
  destruct t as [f|f cfg [|ra todo]|f cfg|f cfg [|item todo]|f e|f| | |];
    cbn [task_step task_file]; intros Hs.
  - destruct (load_start f st) as [[[cfg declared]|e|code] st1]; by simplify_eq.
  - by simplify_eq.
  - destruct (mount ra st) as [[[]|e|code] st1]; by simplify_eq.
  - unfold lock_acquire in Hs. destruct lock; by simplify_eq.
  - by simplify_eq.
  - destruct (setup_hook cfg item st) as [[[]|e|code] st1]; by simplify_eq.
  - destruct (load_failed f e st) as [[[]|e'|code] st1]; by simplify_eq.
  - destruct (load_finished f st) as [[[]|e'|code] st1]; by simplify_eq.
  - done.
  - done.
  - done.
Qed.

Lemma boot_inv_init (dir : string) (reloader : bool) :
  boot_inv dir reloader (glob_py dir) (init dir reloader).
Proof.
  split; [done|]. split; [by intros i t cf ?|].
  exists [], (glob_py dir). split; [done|]. split; [done|]. split; [|done].
  intros _ cf Hcf. by apply elem_of_nil in Hcf.
Qed.

Lemma boot_inv_step (dir : string) (reloader : bool) (m m' : Machine) :
  boot_inv dir reloader (glob_py dir) m -> step m m' ->
  boot_inv dir reloader (glob_py dir) m'.
Proof.
  intros (Hset & Hfile & done_ & todo & Hfiles & Hlen & Hwatch & Hmain) Hstep.
  destruct Hstep as [m m' Hstep|m tid t t' lock' st' Ht Hs].
  - unfold main_step in Hstep.
    destruct (main m) as [|[|cf rest]| |] eqn:Em; try done.
    + pose proof (load_begin_keeps_settled (shared m)) as Hk.
      rewrite (returns_unit _ _ load_begin_returns) in Hstep.
      simplify_eq. unfold boot_inv. cbn [shared threads main].
      unfold keeps in Hk. rewrite Hk, Hset.
      split; [done|]. split; [by intros i t cf ?|].
      exists [], (glob_py dir). repeat split; try done.
      * intros _ cf Hcf. by apply elem_of_nil in Hcf.
      * f_equal. pose proof (f_equal snd Hk) as Hd. rewrite Hset in Hd. exact Hd.
    + pose proof (load_end_keeps_settled (shared m)) as Hk.
      rewrite (returns_unit _ _ load_end_returns) in Hstep.
      simplify_eq. unfold boot_inv. cbn [shared threads main].
      apply keeps_settled_reloader in Hk as [Hk1 Hk3]. cbn [snd] in Hk1, Hk3.
      rewrite Hk1, Hk3. split; [done|]. split; [done|].
      by exists done_, [].
    + pose proof (load_dispatch_keeps_settled cf (shared m)) as Hk.
      pose proof (load_dispatch_reloader cf (shared m)) as Hr.
      rewrite (returns_unit _ _ (load_dispatch_returns cf)) in Hstep.
      simplify_eq. unfold boot_inv. cbn [shared threads main].
      unfold keeps in Hk. rewrite Hk, Hset. split; [done|]. split.
      * intros i t f Hi Hf.
        apply lookup_app_Some in Hi as [Hi|[Hge Hi]]; [by eapply Hfile|].
        apply list_lookup_singleton_Some in Hi as [Hi <-].
        cbn [task_file] in Hf. injection Hf as <-.
        assert (i = length done_) as -> by lia.
        by rewrite Hfiles, list_lookup_middle.
      * exists (done_ ++ [cf]), rest. rewrite <- app_assoc.
        split; [done|]. split; [rewrite !length_app; simpl; lia|].
        split; [|done]. intros Hon g Hg. rewrite Hr.
        assert (_use_reloader (shared m) = true) as ->.
        { pose proof (f_equal fst Hset) as Hu. simpl in Hu. congruence. }
        apply elem_of_app in Hg as [Hg|Hg]; apply elem_of_app;
          [left; by apply Hwatch|by right].
  - destruct (task_step_settled tid t t' _ lock' _ st' Hs) as [Hk Hkeep].
    unfold boot_inv. cbn [shared threads main]. rewrite Hk.
    split; [done|]. split.
    + intros i t0 cf Hi Hf.
      destruct (decide (i = tid)) as [->|Hne].
      * rewrite list_lookup_insert_eq in Hi by (by eapply lookup_lt_Some).
        simplify_eq. eapply Hfile; [exact Ht|]. by eapply task_step_file.
      * rewrite list_lookup_insert_ne in Hi by done. by eapply Hfile.
    + exists done_, todo. rewrite length_insert. repeat split; try done.
      intros Hon cf Hcf. by apply Hkeep, Hwatch.
Qed.

Lemma boot_inv_reachable (dir : string) (reloader : bool) (m : Machine) :
  rtc step (init dir reloader) m -> boot_inv dir reloader (glob_py dir) m.
Proof.
  revert m. apply (rtc_ind_r (R := step) (boot_inv dir reloader (glob_py dir))).
  - apply boot_inv_init.
  - intros m1 m2 _ Hs Hm. by apply (boot_inv_step dir reloader m1 m2).
Qed.

(** X14. One thread per file, in every interleaving. However the threads and
    [load] have moved, there are no more threads than files in the
    directory; the thread at place [i] is loading the file at place [i] of
    the listing, as long as it is alive; once [load] has returned there is a
    thread for every file and, with the reloader on, every file of the
    listing is watched. *)
Theorem load_starts_one_thread_per_file (dir : string) (reloader : bool)
    (m : Machine) :
  rtc step (init dir reloader) m ->
  (length (threads m) <= length (glob_py dir))%nat
  /\ (forall i t cf, threads m !! i = Some t -> task_file t = Some cf ->
        glob_py dir !! i = Some cf)
  /\ (main m = MReturned ->
      length (threads m) = length (glob_py dir)
      /\ (reloader = true ->
          forall cf, cf ∈ glob_py dir -> cf ∈ _reloader (shared m))).
Proof.
  intros Hrun.
  destruct (boot_inv_reachable dir reloader m Hrun)
    as (_ & Hfile & done_ & todo & Hfiles & Hlen & Hwatch & Hmain).
  split; [rewrite Hfiles, Hlen, length_app; lia|]. split; [exact Hfile|].
  intros Hret. rewrite Hret in Hmain. subst todo.
  rewrite app_nil_r in Hfiles. subst done_. done.
Qed.

End BootExtras.

(** ** Where the entries of the table and of the registry come from *)

Section ProvenanceFacts.

Context `{External}.

Lemma register_handlers (l : list (string * Setting)) (st : State)
    (name : string) (hook : Hook) :
  _hooks (for_each l register_setting st).2 !! name = Some hook ->
  handlers hook = [] \/ _hooks st !! name = Some hook.
Proof.
  revert st. induction l as [|[n o] l IH]; intros st Hl; [by right|].
  cbn [for_each] in Hl. unfold bind in Hl.
  assert (exists st1, register_setting (n, o) st = (Ret tt, st1)
            /\ forall nm hk, _hooks st1 !! nm = Some hk ->
                 handlers hk = [] \/ _hooks st !! nm = Some hk)
    as (st1 & E & H1).
  { unfold register_setting. destruct (String.eqb (section o) "Server Hooks").
    - eexists. split; [reflexivity|]. intros nm hk. simpl.
      intros [[_ <-]|[_ ?]]%lookup_insert_Some; [by left|by right].
    - exists st. split; [done|]. intros nm hk ?. by right. }
  rewrite E in Hl. apply IH in Hl as [?|Hl]; [by left|]. by apply H1.
Qed.

Lemma load_begin_handlers (st : State) (name : string) (hook : Hook) :
  _hooks (load_begin st).2 !! name = Some hook ->
  handlers hook = [] \/ _hooks st !! name = Some hook.
Proof.
  unfold load_begin, bind, modify, get. rewrite setup_hooks_unfold.
  pose proof (register_handlers make_settings
                (set_router (fun _ => ∅) st) name hook) as Hreg.
  destruct (for_each make_settings register_setting _) as [[[]|e|c] st1]; cbn [snd] in *;
    [|exact Hreg..].
  by destruct (_use_reloader st1).
Qed.

(** One turn of [_setup_hooks] leaves the registry as it is or appends the
    unit's binding, truthy and accepted, to the entry of the name. *)
Lemma setup_hook_effect (cfg : Scope) (n : string) (hk : Hook) (st : State) :
  _hooks (setup_hook cfg (n, hk) st).2 = _hooks st
  \/ (truthy (scope_get cfg n) = true
      /\ validator hk (scope_get cfg n) = Ret tt
      /\ _hooks (setup_hook cfg (n, hk) st).2
         = alter (appended (scope_get cfg n)) n (_hooks st)).
Proof.
  destruct (truthy (scope_get cfg n)) eqn:Ht.
  - destruct (setup_hook_truthy cfg n hk st Ht) as (st1 & _ & Hh & _ & _ & Hv).
    destruct (validator hk (scope_get cfg n)) as [[]|e|c].
    + destruct Hv as (st' & -> & Hh' & _). by right.
    + rewrite Hv. by left.
    + rewrite Hv. by left.
  - rewrite (setup_hook_falsy cfg n hk st Ht). by left.
Qed.

Lemma thread_inv_hooks (st st' : State) (t : Task) :
  (forall n hook', _hooks st' !! n = Some hook' ->
     exists hook, _hooks st !! n = Some hook /\ validator hook' = validator hook) ->
  thread_inv st t -> thread_inv st' t.
Proof.
  intros Hv. destruct t; try done. cbn [thread_inv].
  intros [He Hitems]. split; [done|]. intros n hk hook' Hin Hl.
  destruct (Hv n hook' Hl) as (hook & Hl0 & ->). by eapply Hitems.
Qed.

(** What one step of a thread adds to the table and to the registry is
    what the unit of its file gave. *)
Lemma task_step_effect (tid : nat) (t t' : Task) (lock lock' : option nat)
    (st st' : State) :
  task_step tid t lock st = Some (t', lock', st') -> thread_inv st t ->
  thread_inv st' t'
  /\ (forall k h, _router st' !! k = Some h ->
        _router st !! k = Some h
        \/ exists cf, task_file t = Some cf /\ unit_mounts cf k h)
  /\ (forall name hook', _hooks st' !! name = Some hook' ->
        exists hook, _hooks st !! name = Some hook
          /\ validator hook' = validator hook
          /\ forall h, h ∈ handlers hook' ->
               h ∈ handlers hook
               \/ exists cf, task_file t = Some cf
                    /\ unit_hooks cf name (validator hook) h).
Proof.
  assert (forall s s' : State, _router s' = _router s -> _hooks s' = _hooks s ->
            (forall k h, _router s' !! k = Some h ->
               _router s !! k = Some h
               \/ exists cf, task_file t = Some cf /\ unit_mounts cf k h)
            /\ (forall name hook', _hooks s' !! name = Some hook' ->
                  exists hook, _hooks s !! name = Some hook
                    /\ validator hook' = validator hook
                    /\ forall h, h ∈ handlers hook' ->
                         h ∈ handlers hook
                         \/ exists cf, task_file t = Some cf
                              /\ unit_hooks cf name (validator hook) h)) as Hsame.
  { intros s s' -> ->. split; [by left|]. intros name hook' Hl.
    exists hook'. split; [done|]. split; [done|]. by left. }
  destruct t as [cf|cf cfg [|[r a] todo]|cf cfg|cf cfg [|[n hk] todo]|cf e|cf| | |];
    cbn [task_step]; intros Hs Hinv.
  - (* the start, up to the mount loop *)
    rewrite load_start_cases in Hs.
    assert (st' = entered cf st) as -> by (by simplify_eq).
    split; [|by apply Hsame].
    destruct (execfile cf) as [cfg|e|c] eqn:He; [|by simplify_eq..].
    destruct (mounts cfg) as [|ra declared] eqn:Em.
    + destruct (import_app (cf_name cf)) as [a|e|c] eqn:Ei; [|by simplify_eq..].
      simplify_eq. cbn [thread_inv]. split; [done|].
      intros r a' [= -> ->]%list_elem_of_singleton. exists cfg. split; [done|].
      right. split; [done|]. split; [done|].
      apply normalize_slash_name, cf_name_no_slash.
    + simplify_eq. cbn [thread_inv]. split; [done|].
      intros r a Hin. exists cfg. split; [done|]. left. exists r.
      by rewrite Em.
  - (* the end of the mount loop *)
    simplify_eq. split; [by destruct Hinv|]. by apply Hsame.
  - (* one mount *)
    destruct Hinv as [He Htodo].
    destruct (mount_spec r a st) as (st1 & ws & Hm & Hr & _).
    pose proof (mount_keeps_hooks (r, a) st) as Hk. rewrite Hm in Hs, Hk.
    assert (st' = st1) as -> by (by simplify_eq). split; [|split].
    + destruct (py_ne _ a); simplify_eq; cbn [thread_end thread_inv]; [done|].
      split; [done|]. intros r' a' Hin. apply Htodo. by right.
    + intros k h. rewrite Hr. unfold Router.add_mount.
      destruct (_router st !! Router.normalize r) eqn:E; cbn [snd]; [by left|].
      intros [[<- <-]|[_ ?]]%lookup_insert_Some; [|by left].
      right. exists cf. split; [done|]. apply Htodo. by left.
    + intros name hook' Hl. exists hook'. unfold keeps in Hk. cbn [snd] in Hk.
      rewrite <- Hk. split; [done|]. split; [done|]. by left.
  - (* taking the lock *)
    unfold lock_acquire in Hs. destruct lock; simplify_eq.
    split; [|by apply Hsame]. cbn [thread_inv] in *. split; [done|].
    intros n hk hook Hin%elem_of_map_to_list Hl. congruence.
  - (* the end of [_setup_hooks] *)
    simplify_eq. split; [done|]. by apply Hsame.
  - (* one hook *)
    destruct Hinv as [He Hitems].
    pose proof (setup_hook_keeps_router cfg (n, hk) st) as Hr.
    pose proof (setup_hook_effect cfg n hk st) as Heff.
    destruct (setup_hook cfg (n, hk) st) as [res st1].
    assert (st' = st1) as -> by (destruct res as [[]| |]; by simplify_eq).
    unfold keeps in Hr. cbn [snd] in Hr, Heff.
    assert (forall name hook', _hooks st1 !! name = Some hook' ->
              exists hook, _hooks st !! name = Some hook
                /\ validator hook' = validator hook
                /\ forall h, h ∈ handlers hook' ->
                     h ∈ handlers hook
                     \/ exists cf0, task_file (THooks cf cfg ((n, hk) :: todo)) = Some cf0
                          /\ unit_hooks cf0 name (validator hook) h) as Hreg.
    { intros name hook' Hl. destruct Heff as [Hsm|(Ht & Hv & Halt)].
      - rewrite Hsm in Hl. exists hook'. split; [done|]. split; [done|]. by left.
      - rewrite Halt in Hl.
        apply lookup_alter_Some in Hl as [(<- & hook & Hl & ->)|[_ Hl]].
        + exists hook. split; [done|]. split; [done|].
          cbn [appended handlers]. intros h [Hh|Hh%list_elem_of_singleton]%elem_of_app;
            [by left|]. subst h.
          right. exists cf. split; [done|]. exists cfg.
          split; [done|]. split; [done|]. split; [done|].
          rewrite (Hitems n hk hook); [done|by left|done].
        + exists hook'. split; [done|]. split; [done|]. by left. }
    split; [|split].
    + assert (thread_inv st1 (THooks cf cfg todo)) as Hnext.
      { cbn [thread_inv]. split; [done|]. intros n' hk' hook' Hin Hl.
        destruct (Hreg n' hook' Hl) as (hook & Hl0 & -> & _).
        eapply Hitems; [by right|done]. }
      destruct res as [[]|e|c]; simplify_eq; cbn [thread_end]; done.
    + intros k h. rewrite Hr. by left.
    + exact Hreg.
  - (* the [except] clause *)
    pose proof (load_failed_keeps_router cf e st) as Hr.
    pose proof (load_failed_keeps_hooks cf e st) as Hk.
    destruct (load_failed cf e st) as [[[]|e'|c] st1]; simplify_eq;
      (split; [done|by apply Hsame]).
  - (* the closing log calls *)
    pose proof (load_finished_keeps_router cf st) as Hr.
    pose proof (load_finished_keeps_hooks cf st) as Hk.
    destruct (load_finished cf st) as [[[]|e'|c] st1]; simplify_eq;
      (split; [done|by apply Hsame]).
  - done.
  - done.
  - done.
Qed.

Lemma provenance_init (dir : string) (reloader : bool) (files : list string) :
  provenance files (init dir reloader).
Proof.
  split; [|split].
  - by intros i t ?.
  - intros k h. cbn. by rewrite lookup_empty.
  - intros name hook h. cbn. by rewrite lookup_empty.
Qed.

Lemma provenance_step (dir : string) (reloader : bool) (m m' : Machine) :
  boot_inv dir reloader (glob_py dir) m -> provenance (glob_py dir) m ->
  step m m' -> provenance (glob_py dir) m'.
Proof.
  intros (_ & Hfile & _) (Hth & Htab & Hreg) Hstep.
  destruct Hstep as [m m' Hstep|m tid t t' lock' st' Ht Hs].
  - assert (forall st1 ts,
              _router st1 = _router (shared m) -> _hooks st1 = _hooks (shared m) ->
              (forall i t, ts !! i = Some t -> thread_inv (shared m) t) ->
              forall lock mn, provenance (glob_py dir) (mkMachine st1 lock mn ts))
      as Hkeep.
    { intros st1 ts Hr Hk Hts lock mn. split; [|split]; cbn [shared threads].
      - intros i t Hi. eapply thread_inv_hooks; [|by eapply Hts].
        intros n hook' Hl. exists hook'. by rewrite <- Hk.
      - intros k h. rewrite Hr. apply Htab.
      - intros name hook h. rewrite Hk. apply Hreg. }
    unfold main_step in Hstep.
    destruct (main m) as [|[|cf rest]| |] eqn:Em; try done.
    + rewrite (returns_unit _ _ load_begin_returns) in Hstep. simplify_eq.
      split; [|split]; cbn [shared threads].
      * by intros i t ?.
      * intros k h. rewrite load_begin_router. by rewrite lookup_empty.
      * intros name hook h Hl Hh.
        apply load_begin_handlers in Hl as [Hnil|Hold].
        -- rewrite Hnil in Hh. by apply elem_of_nil in Hh.
        -- by eapply Hreg.
    + rewrite (returns_unit _ _ load_end_returns) in Hstep. simplify_eq.
      apply Hkeep; [apply load_end_keeps_router|apply load_end_keeps_hooks|done].
    + rewrite (returns_unit _ _ (load_dispatch_returns cf)) in Hstep. simplify_eq.
      apply Hkeep;
        [apply load_dispatch_keeps_router|apply load_dispatch_keeps_hooks|].
      intros i t [Hi|[_ Hi]]%lookup_app_Some; [by eapply Hth|].
      by apply list_lookup_singleton_Some in Hi as [_ <-].
  - destruct (task_step_effect tid t t' _ lock' _ st' Hs (Hth tid t Ht))
      as (Hnext & Hrouter & Hhooks).
    assert (forall cf, task_file t = Some cf -> cf ∈ glob_py dir) as Hcf.
    { intros cf Hf. eapply list_elem_of_lookup_2. by eapply Hfile. }
    split; [|split]; cbn [shared threads].
    + intros i t0 Hi. destruct (decide (i = tid)) as [->|Hne].
      * rewrite list_lookup_insert_eq in Hi by (by eapply lookup_lt_Some).
        by simplify_eq.
      * rewrite list_lookup_insert_ne in Hi by done.
        eapply thread_inv_hooks; [|by eapply Hth].
        intros n hook' Hl. destruct (Hhooks n hook' Hl) as (hook & ? & ? & _).
        by exists hook.
    + intros k h Hk. destruct (Hrouter k h Hk) as [Hold|(cf & Hf & Hu)];
        [by apply Htab|].
      exists cf. split; [by apply Hcf|done].
    + intros name hook' h Hl Hh.
      destruct (Hhooks name hook' Hl) as (hook & Hl0 & Hv & Hfrom).
      rewrite Hv. destruct (Hfrom h Hh) as [Hold|(cf & Hf & Hu)];
        [by eapply Hreg|].
      exists cf. split; [by apply Hcf|done].
Qed.

Lemma provenance_reachable (dir : string) (reloader : bool) (m : Machine) :
  rtc step (init dir reloader) m -> provenance (glob_py dir) m.
Proof.
  intros Hrun.
  assert (boot_inv dir reloader (glob_py dir) m /\ provenance (glob_py dir) m)
    as [_ Hp]; [|exact Hp].
  revert m Hrun.
  apply (rtc_ind_r (R := step)
           (fun m => boot_inv dir reloader (glob_py dir) m
                     /\ provenance (glob_py dir) m)).
  - split; [apply boot_inv_init|apply provenance_init].
  - intros m1 m2 _ Hs [Hb Hp]. split.
    + by apply (boot_inv_step dir reloader m1 m2).
    + by apply (provenance_step dir reloader m1 m2).
Qed.

(** X15. The table holds nothing but what the units gave it. In every state the
    process reaches, in every interleaving, an entry of the mount table is
    a mount of a unit of the application directory: one the unit declares,
    under its normalized key, or the one of its name when it declares
    none. *)
Theorem table_holds_units_mounts (dir : string) (reloader : bool) (m : Machine)
    (k : string) (h : PyVal) :
  rtc step (init dir reloader) m ->
  _router (shared m) !! k = Some h ->
  exists cf, cf ∈ glob_py dir /\ unit_mounts cf k h.
Proof.
  intros Hrun Hk. destruct (provenance_reachable dir reloader m Hrun) as (_ & Htab & _).
  by apply Htab.
Qed.

(** X16. The registry holds nothing but accepted handlers. In every state the
    process reaches, in every interleaving, a handler of an event is what a
    unit of the application directory binds the event's name to, a truthy
    value the validator of the event has accepted. *)
Theorem registry_holds_accepted_handlers (dir : string) (reloader : bool)
    (m : Machine) (name : string) (hook : Hook) (h : PyVal) :
  rtc step (init dir reloader) m ->
  _hooks (shared m) !! name = Some hook -> h ∈ handlers hook ->
  exists cf cfg, cf ∈ glob_py dir /\ execfile cf = Ret cfg
    /\ scope_get cfg name = h /\ truthy h = true /\ validator hook h = Ret tt.
Proof.
  intros Hrun Hl Hh.
  destruct (provenance_reachable dir reloader m Hrun) as (_ & _ & Hreg).
  destruct (Hreg name hook h Hl Hh) as (cf & Hcf & cfg & He & Hu). by exists cf, cfg.
Qed.

End ProvenanceFacts.

(** * The scenarios, run *)

#[local] Existing Instance Scenario.world.

(** The two units of "/srv/apps", loaded one after the other: the table
    is [{'/blog': BlogApp, '/api': ApiApp}]. *)
Example apps_loaded :
  let st := (run load_file "/srv/apps/blog.py" ;; load_file "/srv/apps/api.py")
              (Scenario.booted "/srv/apps") in
  st.1 = Ret tt
  /\ map_to_list (_router st.2) ≡ₚ [("/blog", Scenario.BlogApp); ("/api", Scenario.ApiApp)]
  /\ Router.resolve (_router st.2) "/blog/posts/3" = Some Scenario.BlogApp
  /\ Router.resolve (_router st.2) "/unknown" = None.
Proof.
  cbv zeta. split; [by vm_compute|]. split; [|split; by vm_compute].
  vm_compute. apply Permutation_swap.
Qed.

(** C1, on the code. Two units claim '/shared' with different handlers.
    [load] returns, the thread of "a.py" mounts '/shared', the thread of
    "b.py" finds the conflict, logs it and calls [sys.exit(1)]: that thread
    is over and nothing else is. [load] has returned the router, the
    process serves from it, and the thread of "c.py" goes on to mount
    '/late' after the conflict. *)
Theorem C1_conflict_ends_only_its_thread :
  threads <$> Scenario.clash_run = Some [TDone; TExited 1; TDone]
  /\ main <$> Scenario.clash_run = Some MReturned
  /\ (fun m => errors (logger (shared m))) <$> Scenario.clash_run
     = Some [Log ERROR "Found conflicting routes for '/shared'"]
  /\ (fun m => serving m ≫= (.!! "/shared")) <$> Scenario.clash_run
     = Some (Some Scenario.AppX)
  /\ (fun m => serving m ≫= (.!! "/late")) <$> Scenario.clash_run
     = Some (Some Scenario.AppZ)
  /\ (exists m, Scenario.clash_run = Some m /\ rtc step (init "/srv/clash" false) m).
Proof.
  repeat (split; [by vm_compute|]).
  destruct Scenario.clash_run as [m|] eqn:E; [|by vm_compute in E].
  exists m. split; [done|].
  apply (run_schedule_steps Scenario.clash_schedule). exact E.
Qed.

(** C2 fails on the code: with [h1], [h2], [h3] registered in that order
    and [h2] raising, firing the event calls [h1] and [h2] only, and the
    exception of [h2] is the result of [_do_hook]. *)
Lemma C2_counterexample :
  (_do_hook "pre_fork" [PyInt 1; PyInt 2] Scenario.three_hooks).1
  = Raise Scenario.Boom
  /\ trace (_do_hook "pre_fork" [PyInt 1; PyInt 2] Scenario.three_hooks).2
     = [Called "pre_fork" Scenario.h1 [PyInt 1; PyInt 2];
        Called "pre_fork" Scenario.h2 [PyInt 1; PyInt 2]].
Proof. split; by vm_compute. Qed.

Lemma C2_witness :
  _hooks Scenario.three_hooks !! "pre_fork"
  = Some (mkHook [Scenario.h1; Scenario.h2; Scenario.h3] Scenario.validate_callable)
  /\ _hooks (_do_hook "pre_fork" [PyInt 1; PyInt 2] Scenario.three_hooks).2
     = _hooks Scenario.three_hooks
  /\ (_do_hook "pre_fork" [PyInt 1; PyInt 2] Scenario.three_hooks).1
     = Raise Scenario.Boom.
Proof.
  assert (_hooks Scenario.three_hooks !! "pre_fork"
          = Some (mkHook [Scenario.h1; Scenario.h2; Scenario.h3]
                    Scenario.validate_callable)) as Hh by (by vm_compute).
  destruct (C2_fire_stops_at_first_failure "pre_fork" _ [PyInt 1; PyInt 2]
              Scenario.three_hooks Hh) as (Hkeep & _ & _ & Hstop).
  split; [exact Hh|]. split; [exact Hkeep|].
  apply (Hstop [Scenario.h1] Scenario.h2 [Scenario.h3] Scenario.Boom).
  - reflexivity.
  - intros x ->%list_elem_of_singleton. by vm_compute.
  - by vm_compute.
Defined.

(** C3 fails on the code: the unit "shop.py" declares a mount and binds
    [pre_fork] to something the validator refuses. Its load fails with that
    exception, caught and logged, and yet its mount is in the table. *)
Lemma C3_counterexample :
  (load_body "/srv/mixed/shop.py" (Scenario.booted "/srv/mixed")).1
  = Raise Scenario.TypeError
  /\ (load_file "/srv/mixed/shop.py" (Scenario.booted "/srv/mixed")).1 = Ret tt
  /\ _router (Scenario.booted "/srv/mixed") !! "/shop" = None
  /\ _router (load_file "/srv/mixed/shop.py" (Scenario.booted "/srv/mixed")).2
     !! "/shop" = Some Scenario.ShopApp.
Proof. repeat split; by vm_compute. Qed.

Lemma C3_witness :
  fails_before_merge "/srv/mixed/broken.py" Scenario.SyntaxError
  /\ (load_file "/srv/mixed/broken.py" (Scenario.booted "/srv/mixed")).1 = Ret tt
  /\ _router (load_file "/srv/mixed/broken.py" (Scenario.booted "/srv/mixed")).2
     = _router (Scenario.booted "/srv/mixed")
  /\ _hooks (load_file "/srv/mixed/broken.py" (Scenario.booted "/srv/mixed")).2
     = _hooks (Scenario.booted "/srv/mixed").
Proof.
  assert (fails_before_merge "/srv/mixed/broken.py" Scenario.SyntaxError) as Hf
    by (left; by vm_compute).
  destruct C3_failure_before_merge_contributes_nothing as (Hseq & _).
  destruct (Hseq _ _ (Scenario.booted "/srv/mixed") Hf) as (Hret & Hr & Hh & _).
  split; [exact Hf|]. split; [exact Hret|]. split; [exact Hr|exact Hh].
Defined.

Lemma C4_witness :
  Router.normalize (mount_path "foo/") = "/foo"
  /\ mount_path "foo/" = "/foo"
  /\ mount_path "/" = EmptyString
  /\ _router (mount ("/", Scenario.AppY) Scenario.mounted).2 !! "/"
     = Some Scenario.AppY
  /\ Router.resolve (Router.add_mount "foo/" Scenario.AppX ∅).2 "/foo"
     = Some Scenario.AppX.
Proof.
  destruct (C4_stored_path_is_normalized "foo/" Scenario.AppX Scenario.mounted)
    as (_ & Hpath & _ & _ & _ & Hn & _ & _ & _ & (Hroot & _) & _ & _ & _ & Hres).
  destruct (C4_stored_path_is_normalized "/" Scenario.AppY Scenario.mounted)
    as (_ & _ & _ & _ & Hstored & _).
  split; [by rewrite Hn|]. split; [exact Hpath|]. split; [exact Hroot|].
  split; [exact Hstored|exact Hres].
Defined.

Lemma C5_witness :
  Router.longest_match Scenario.nested "/blog/admin/users" Scenario.ApiApp
  /\ Router.longest_match Scenario.nested "/blog/posts/3" Scenario.BlogApp
  /\ Router.no_match Scenario.nested "/unknown".
Proof.
  split; [|split].
  - apply (C5_resolve_longest_prefix Scenario.nested "/blog/admin/users").
    by vm_compute.
  - apply (C5_resolve_longest_prefix Scenario.nested "/blog/posts/3").
    by vm_compute.
  - apply (C5_resolve_longest_prefix Scenario.nested "/unknown").
    by vm_compute.
Defined.

Lemma C6_witness :
  execfile "/srv/apps/blog.py" = Ret (mkScope [] ∅)
  /\ import_app (cf_name "/srv/apps/blog.py") = Ret Scenario.BlogApp
  /\ _router (Scenario.booted "/srv/apps") !! "/blog" = None
  /\ _router (load_file "/srv/apps/blog.py" (Scenario.booted "/srv/apps")).2
     = <["/blog" := Scenario.BlogApp]> (_router (Scenario.booted "/srv/apps")).
Proof.
  assert (execfile "/srv/apps/blog.py" = Ret (mkScope [] ∅)) as He by (by vm_compute).
  assert (import_app (cf_name "/srv/apps/blog.py") = Ret Scenario.BlogApp) as Hi
    by (by vm_compute).
  assert (_router (Scenario.booted "/srv/apps") !! "/blog" = None) as Hfree
    by (by vm_compute).
  destruct (C6_default_mount_by_name "/srv/apps/blog.py" (mkScope [] ∅)
              Scenario.BlogApp (Scenario.booted "/srv/apps") He eq_refl Hi)
    as (_ & _ & _ & Hnew).
  split; [exact He|]. split; [exact Hi|]. split; [exact Hfree|].
  exact (Hnew Hfree).
Defined.


Lemma C8_witness :
  exists m,
    rtc step (init "/srv/apps" false) m
    /\ main m = MReturned
    /\ threads m = [TStart "/srv/apps/blog.py"; TStart "/srv/apps/api.py"]
    /\ serving m = Some ∅.
Proof.
  destruct (C8_load_returns_without_waiting "/srv/apps" false)
    as ((m & Hrun & Hm & Ht & Hs) & _).
  exists m. split; [exact Hrun|]. split; [exact Hm|]. split; [exact Ht|exact Hs].
Defined.

Lemma C9_witness :
  truthy (scope_get (mkScope [] Scenario.quiet_bindings) "pre_fork") = false
  /\ truthy (scope_get (mkScope [] Scenario.quiet_bindings) "on_starting") = false
  /\ truthy (scope_get (mkScope [] Scenario.quiet_bindings) "worker_exit") = false
  /\ setup_hook (mkScope [] Scenario.quiet_bindings)
       ("pre_fork", mkHook [] Scenario.validate_callable) Scenario.three_hooks
     = (Ret tt, Scenario.three_hooks)
  /\ setup_hook (mkScope [] Scenario.quiet_bindings)
       ("on_starting", mkHook [] Scenario.validate_callable) Scenario.three_hooks
     = (Ret tt, Scenario.three_hooks)
  /\ setup_hook (mkScope [] Scenario.quiet_bindings)
       ("worker_exit", mkHook [] Scenario.validate_callable) Scenario.three_hooks
     = (Ret tt, Scenario.three_hooks).
Proof.
  assert (truthy (scope_get (mkScope [] Scenario.quiet_bindings) "pre_fork") = false)
    as H1 by (by vm_compute).
  assert (truthy (scope_get (mkScope [] Scenario.quiet_bindings) "on_starting") = false)
    as H2 by (by vm_compute).
  assert (truthy (scope_get (mkScope [] Scenario.quiet_bindings) "worker_exit") = false)
    as H3 by (by vm_compute).
  split; [exact H1|]. split; [exact H2|]. split; [exact H3|].
  split; [|split].
  - apply (C9_falsy_binding_skipped _ "pre_fork" _ Scenario.three_hooks H1).
  - apply (C9_falsy_binding_skipped _ "on_starting" _ Scenario.three_hooks H2).
  - apply (C9_falsy_binding_skipped _ "worker_exit" _ Scenario.three_hooks H3).
Defined.

Lemma C10_witness :
  _router Scenario.mounted !! Router.normalize "a/" = Some Scenario.AppX
  /\ Router.add_mount "a/" Scenario.AppX (_router Scenario.mounted)
     = (Scenario.AppX, _router Scenario.mounted)
  /\ (mount ("a/", Scenario.AppX) Scenario.mounted).1 = Ret tt.
Proof.
  assert (_router Scenario.mounted !! Router.normalize "a/" = Some Scenario.AppX)
    as Hp by (by vm_compute).
  destruct (C10_remount_same_handler "a/" Scenario.AppX Scenario.mounted)
    as (Hsame & _).
  destruct (Hsame Hp) as (Hadd & st' & Hrun & _).
  split; [exact Hp|]. split; [exact Hadd|]. by rewrite Hrun.
Defined.

(** ** The further properties, run *)

Lemma mount_trims_key_witness :
  mount_path "/" = EmptyString
  /\ mount_path "foo/" = "/foo"
  /\ mount_warnings "/foo" = [].
Proof.
  destruct (mount_trims_key "/" Scenario.AppX Scenario.mounted)
    as (_ & _ & _ & Hroot & _).
  destruct (mount_trims_key "/foo" Scenario.AppX Scenario.mounted)
    as (_ & _ & _ & _ & Hfixed & _).
  split; [by apply Hroot|]. split; [reflexivity|]. by apply Hfixed.
Defined.

Lemma load_file_watches_failure_witness :
  _reloader (load_file "/srv/mixed/broken.py" Fixtures.watching).2
  = ["greins/app.py"; "/srv/mixed/broken.py"]
  /\ _reloader (load_file "/srv/mixed/quiet.py" Fixtures.watching).2 = [].
Proof.
  rewrite (load_file_watches_failure "/srv/mixed/broken.py" Fixtures.watching).
  rewrite (load_file_watches_failure "/srv/mixed/quiet.py" Fixtures.watching).
  split; by vm_compute.
Defined.

Lemma unit_name_of_file_witness :
  pystr.contains pystr.slash "blog" = false
  /\ cf_name "/srv/apps/blog.py" = "blog"
  /\ cf_name "/srv/apps/.py" = ".py".
Proof.
  split; [reflexivity|]. split.
  - exact (unit_name_of_file "/srv/apps" "blog" eq_refl).
  - exact (unit_name_of_file "/srv/apps" EmptyString eq_refl).
Defined.

Lemma returned_load_table_witness :
  (load_file "/srv/mixed/shop.py" (Scenario.booted "/srv/mixed")).1 = Ret tt
  /\ unit_mounts "/srv/mixed/shop.py" "/shop" Scenario.ShopApp
  /\ _router (load_file "/srv/mixed/shop.py" (Scenario.booted "/srv/mixed")).2
     !! "/shop" = Some Scenario.ShopApp.
Proof.
  assert ((load_file "/srv/mixed/shop.py" (Scenario.booted "/srv/mixed")).1 = Ret tt)
    as Hret by (by vm_compute).
  assert (unit_mounts "/srv/mixed/shop.py" "/shop" Scenario.ShopApp) as Hu.
  { exists Scenario.shop_scope. split; [by vm_compute|]. left.
    exists "shop/". split; [by left|by vm_compute]. }
  split; [exact Hret|]. split; [exact Hu|].
  apply (returned_load_table "/srv/mixed/shop.py" (Scenario.booted "/srv/mixed") Hret).
  by right.
Defined.

Lemma loads_commute_witness :
  _router (load_file "/srv/apps/api.py"
             (load_file "/srv/apps/blog.py" (Scenario.booted "/srv/apps")).2).2
  = _router (load_file "/srv/apps/blog.py"
               (load_file "/srv/apps/api.py" (Scenario.booted "/srv/apps")).2).2.
Proof.
  apply (loads_commute "/srv/apps/blog.py" "/srv/apps/api.py"
           (Scenario.booted "/srv/apps")); by vm_compute.
Defined.

Lemma unit_conflicts_with_itself_witness :
  Router.normalize "foo" = Router.normalize "/foo/"
  /\ (@load_file Fixtures.site "/srv/site/site.py" Scenario.mounted).1 = Exit 1
  /\ _hooks (@load_file Fixtures.site "/srv/site/site.py" Scenario.mounted).2
     = _hooks Scenario.mounted.
Proof.
  assert (Router.normalize "foo" = Router.normalize "/foo/") as Hn by reflexivity.
  destruct (@unit_conflicts_with_itself Fixtures.site "/srv/site/site.py"
              Fixtures.twice_scope Scenario.mounted "foo" "/foo/"
              Scenario.AppX Scenario.AppY eq_refl)
    as (Hx & Hh & _).
  - right. by left.
  - right. right. by left.
  - exact Hn.
  - discriminate.
  - split; [exact Hn|]. split; [exact Hx|exact Hh].
Defined.

Lemma conflict_stops_mount_loop_witness :
  _router Fixtures.site_before !! Router.normalize "/foo/" = Some Scenario.AppX
  /\ (@load_file Fixtures.site "/srv/site/site.py" Scenario.mounted).1 = Exit 1
  /\ _router (@load_file Fixtures.site "/srv/site/site.py" Scenario.mounted).2
     !! "/late" = Some Scenario.AppZ
  /\ _router (@load_file Fixtures.site "/srv/site/site.py" Scenario.mounted).2
     !! "/never" = None.
Proof.
  assert (_router Fixtures.site_before !! Router.normalize "/foo/"
          = Some Scenario.AppX) as Hk by (by vm_compute).
  destruct (@conflict_stops_mount_loop Fixtures.site "/srv/site/site.py"
              Fixtures.twice_scope Scenario.mounted Fixtures.site_before
              [("late", Scenario.AppZ); ("foo", Scenario.AppX)]
              [("never", Scenario.BlogApp)] "/foo/" Scenario.AppY Scenario.AppX
              eq_refl eq_refl)
    as (Hx & Hr & Hb & _).
  - by vm_compute.
  - exact Hk.
  - discriminate.
  - split; [exact Hk|]. split; [exact Hx|]. split.
    + apply (Hb "late" Scenario.AppZ). by left.
    + rewrite Hr. by vm_compute.
Defined.

Lemma setup_hooks_registers_witness :
  NoDup (make_settings.*1)
  /\ _hooks Scenario.three_hooks !! "pre_fork"
     = Some (mkHook [Scenario.h1; Scenario.h2; Scenario.h3] Scenario.validate_callable)
  /\ _hooks (setup_hooks Scenario.three_hooks).2 !! "pre_fork"
     = Some (mkHook [] Scenario.validate_callable)
  /\ cfg_hooks (setup_hooks Scenario.three_hooks).2 !! "pre_fork"
     = Some (mkProxy "pre_fork" ["server"; "worker"]).
Proof.
  assert (NoDup (make_settings.*1)) as Hnd by (by compute_done).
  destruct (setup_hooks_registers Scenario.three_hooks Hnd) as [_ Hl].
  destruct (Hl "pre_fork") as [Hin _].
  destruct (Hin (mkSetting "Server Hooks" Scenario.validate_callable
                   ["server"; "worker"])) as [Hh Hp].
  - right. right. by left.
  - reflexivity.
  - split; [exact Hnd|]. split; [by vm_compute|]. split; [exact Hh|exact Hp].
Defined.

Lemma hooked_accepted (name : string) (hook : Hook) :
  _hooks (Scenario.booted "/srv/apps") !! name = Some hook ->
  truthy (scope_get Scenario.hooked_scope name) = true ->
  validator hook (scope_get Scenario.hooked_scope name) = Ret tt.
Proof.
  intros Hl Ht. unfold scope_get in *. cbn [Scenario.hooked_scope bindings] in *.
  destruct (decide (name = "pre_fork")) as [->|Hne].
  - vm_compute in Hl. by injection Hl as <-.
  - by rewrite lookup_singleton_ne in Ht.
Defined.

Lemma _setup_hooks_appends_once_witness :
  (_setup_hooks Scenario.hooked_scope (Scenario.booted "/srv/apps")).1 = Ret tt
  /\ _hooks (_setup_hooks Scenario.hooked_scope (Scenario.booted "/srv/apps")).2
     !! "pre_fork" = Some (mkHook [Scenario.h1] Scenario.validate_callable)
  /\ _hooks (_setup_hooks Scenario.hooked_scope (Scenario.booted "/srv/apps")).2
     !! "on_starting" = Some (mkHook [] Scenario.validate_callable)
  /\ _hooks (_setup_hooks Scenario.hooked_scope (Scenario.booted "/srv/apps")).2
     !! "workers" = None.
Proof.
  destruct (_setup_hooks_appends_once Scenario.hooked_scope
              (Scenario.booted "/srv/apps") hooked_accepted) as [Hret Hl].
  split; [exact Hret|]. rewrite !Hl. split; [|split]; by vm_compute.
Defined.

Lemma forking_accepted (n : string) (hk : Hook) :
  _hooks Fixtures.forking !! n = Some hk ->
  truthy (scope_get Scenario.hooked_scope n) = true ->
  validator hk (scope_get Scenario.hooked_scope n) = Ret tt.
Proof.
  intros Hl Ht. unfold scope_get in *. cbn [Scenario.hooked_scope bindings] in *.
  destruct (decide (n = "pre_fork")) as [->|Hne].
  - vm_compute in Hl. by injection Hl as <-.
  - by rewrite lookup_singleton_ne in Ht.
Defined.

Lemma registered_handler_is_called_last_witness :
  trace (_do_hook "pre_fork" [Fixtures.server; PyInt 4]
           (_setup_hooks Scenario.hooked_scope Fixtures.forking).2).2
  = [Validated "pre_fork" Scenario.h1;
     Called "pre_fork" Scenario.h3 [Fixtures.server; PyInt 4];
     Called "pre_fork" Scenario.h1 [Fixtures.server; PyInt 4]].
Proof.
  destruct (registered_handler_is_called_last Scenario.hooked_scope "pre_fork"
              (mkHook [Scenario.h3] Scenario.validate_callable)
              [Fixtures.server; PyInt 4] Fixtures.forking forking_accepted)
    as [_ Htr].
  - by vm_compute.
  - by vm_compute.
  - intros h [->|[->|[]%elem_of_nil]%elem_of_cons]%elem_of_cons; by vm_compute.
  - rewrite Htr. by vm_compute.
Defined.

Lemma proxy_hands_over_witness :
  _hooks Fixtures.started !! "on_starting"
  = Some (mkHook [Scenario.h1] Scenario.validate_callable)
  /\ call_proxy (mkProxy "on_starting" ["server"]) [Fixtures.server] Fixtures.started
     = (Raise call_TypeError, Fixtures.started)
  /\ call_proxy (mkProxy "pre_fork" ["server"; "worker"]) [Fixtures.server; PyInt 4]
       Fixtures.forking
     = _do_hook "pre_fork" [Fixtures.server; PyInt 4] Fixtures.forking.
Proof.
  assert (_hooks Fixtures.started !! "on_starting"
          = Some (mkHook [Scenario.h1] Scenario.validate_callable)) as Hs
    by (by vm_compute).
  assert (_hooks Fixtures.forking !! "pre_fork"
          = Some (mkHook [Scenario.h3] Scenario.validate_callable)) as Hf
    by (by vm_compute).
  split; [exact Hs|]. split.
  - destruct (proxy_hands_over "on_starting" ["server"] [Fixtures.server] _
                Fixtures.started Hs eq_refl) as [_ Hone].
    exact (Hone Fixtures.server eq_refl).
  - destruct (proxy_hands_over "pre_fork" ["server"; "worker"]
                [Fixtures.server; PyInt 4] _ Fixtures.forking Hf eq_refl)
      as [Hmany _].
    apply Hmany. discriminate.
Defined.

Lemma load_starts_one_thread_per_file_witness :
  rtc step (init "/srv/mixed" true) Fixtures.watched
  /\ main Fixtures.watched = MReturned
  /\ threads Fixtures.watched
     = [TStart "/srv/mixed/shop.py"; TDone; TStart "/srv/mixed/quiet.py"]
  /\ length (threads Fixtures.watched) = 3%nat
  /\ "/srv/mixed/quiet.py" ∈ _reloader (shared Fixtures.watched).
Proof.
  assert (rtc step (init "/srv/mixed" true) Fixtures.watched) as Hrun.
  { apply (run_schedule_steps Fixtures.watched_schedule). by vm_compute. }
  assert (main Fixtures.watched = MReturned) as Hm by (by vm_compute).
  destruct (load_starts_one_thread_per_file "/srv/mixed" true Fixtures.watched Hrun)
    as (_ & _ & Hret).
  destruct (Hret Hm) as [Hlen Hw].
  split; [exact Hrun|]. split; [exact Hm|]. split; [by vm_compute|].
  split; [exact Hlen|]. apply (Hw eq_refl). right. right. by left.
Defined.

Lemma hooked_reached :
  rtc (@step Fixtures.site) (init "/srv/site" false) Fixtures.hooked.
Proof.
  apply (@run_schedule_steps Fixtures.site Fixtures.hooked_schedule). by vm_compute.
Defined.

Lemma table_holds_units_mounts_witness :
  threads Fixtures.hooked = [TStart "/srv/site/site.py"; TDone]
  /\ _router (shared Fixtures.hooked) !! "/hooked" = Some Scenario.ApiApp
  /\ exists cf,
       cf ∈ @glob_py Fixtures.site "/srv/site"
       /\ @unit_mounts Fixtures.site cf "/hooked" Scenario.ApiApp.
Proof.
  assert (_router (shared Fixtures.hooked) !! "/hooked" = Some Scenario.ApiApp)
    as Hk by (by vm_compute).
  split; [by vm_compute|]. split; [exact Hk|].
  exact (@table_holds_units_mounts Fixtures.site "/srv/site" false Fixtures.hooked
           "/hooked" Scenario.ApiApp hooked_reached Hk).
Defined.

Lemma registry_holds_accepted_handlers_witness :
  _hooks (shared Fixtures.hooked) !! "pre_fork"
  = Some (mkHook [Scenario.h1] Scenario.validate_callable)
  /\ exists cf cfg,
       cf ∈ @glob_py Fixtures.site "/srv/site"
       /\ @execfile Fixtures.site cf = Ret cfg
       /\ scope_get cfg "pre_fork" = Scenario.h1
       /\ truthy Scenario.h1 = true
       /\ Scenario.validate_callable Scenario.h1 = Ret tt.
Proof.
  assert (_hooks (shared Fixtures.hooked) !! "pre_fork"
          = Some (mkHook [Scenario.h1] Scenario.validate_callable)) as Hl
    by (by vm_compute).
  split; [exact Hl|].
  apply (@registry_holds_accepted_handlers Fixtures.site "/srv/site" false
           Fixtures.hooked "pre_fork" _ Scenario.h1 hooked_reached Hl).
  by left.
Defined.
